(** * Lane-change controllers of cistar_dev: a shallow embedding

    Source: [cistar_dev/controllers/lane_change_controllers.py].

    The controllers read a simulation environment [env] and return the lane
    a vehicle should drive in.  In the controllers Python numbers are
    modelled exactly, as rationals, together with the one non-number the
    code can produce (the [nan] that [np.mean] returns for an empty list):
    what is proved of the controllers is their control flow over the gaps
    and the scores, whatever their values.  The gaps themselves are also
    modelled on machine floats, with the rounding of binary64, for what is
    proved of their values.  Exceptions are modelled by an error monad, the
    state of the [random] module by an explicit generator state. *)

From Stdlib Require Import ZArith QArith Qround Qabs Qpower Qreduction Lia Lqa.
From Stdlib Require SpecFloat.
From stdpp Require Import base option list gmap strings.

Local Open Scope Z_scope.

(** ** Exceptions and the two monads *)

Inductive exn : Type :=
  | KeyError
  | IndexError
  | ValueError
  | ZeroDivisionError.

Inductive result (A : Type) : Type :=
  | Ok (a : A)
  | Raise (e : exn).
Arguments Ok {A} a.
Arguments Raise {A} e.

#[global] Instance result_ret : MRet result := fun A a => Ok a.
#[global] Instance result_bind : MBind result := fun A B f m =>
  match m with
  | Ok a => f a
  | Raise e => Raise e
  end.

(** The state of Python's [random] module: the draws still to come. *)
Definition rng : Type := nat -> Q.

(** [random.random()]: the next draw, and the generator after it. *)
Definition random (g : rng) : Q * rng := (g 0%nat, fun n => g (S n)).

(** Code that may raise and may draw random numbers. *)
Definition M (A : Type) : Type := rng -> result A * rng.

#[global] Instance M_ret : MRet M := fun A a g => (Ok a, g).
#[global] Instance M_bind : MBind M := fun A B f m g =>
  match m g with
  | (Ok a, g') => f a g'
  | (Raise e, g') => (Raise e, g')
  end.

Definition lift {A : Type} (r : result A) : M A := fun g => (r, g).
Definition random_random : M Q := fun g => let (r, g') := random g in (Ok r, g').

(** ** Python values *)

(** Where a [nan] object was allocated.  [list.index] compares by identity
    before it compares by [==], and [nan == nan] is false, so the identity
    of a [nan] is observable. *)
Inductive alloc : Type :=
  | mean_site (lane : Z)   (* the [np.mean] call of this lane's iteration *)
  | sub_site.              (* the result of a subtraction *)

Inductive pynum : Type :=
  | Num (q : Q)
  | NaN (a : alloc).

Definition Qlt_bool (x y : Q) : bool := negb (Qle_bool y x).

Definition alloc_eqb (a b : alloc) : bool :=
  match a, b with
  | mean_site i, mean_site j => i =? j
  | sub_site, sub_site => true
  | _, _ => false
  end.

(** [a > b] *)
Definition py_gt (a b : pynum) : bool :=
  match a, b with
  | Num x, Num y => Qlt_bool y x
  | _, _ => false
  end.

(** [a - b] *)
Definition py_sub (a b : pynum) : pynum :=
  match a, b with
  | Num x, Num y => Num (x - y)
  | _, _ => NaN sub_site
  end.

(** [a is b or a == b], the test of [list.index]. *)
Definition py_is_or_eq (a b : pynum) : bool :=
  match a, b with
  | Num x, Num y => Qeq_bool x y
  | NaN i, NaN j => alloc_eqb i j
  | _, _ => false
  end.

(** [a % b] on numbers: the result has the sign of [b]. *)
Definition py_mod (a b : Q) : result Q :=
  if Qeq_bool b 0 then Raise ZeroDivisionError
  else Ok (a - b * inject_Z (Qfloor (a / b)))%Q.

(** [max(v)]: the first item is kept until a later one is [>] it. *)
Fixpoint max_from (m : pynum) (v : list pynum) : pynum :=
  match v with
  | [] => m
  | x :: v' => max_from (if py_gt x m then x else m) v'
  end.

Definition py_max (v : list pynum) : result pynum :=
  match v with
  | [] => Raise ValueError
  | x :: v' => Ok (max_from x v')
  end.

(** [v.index(x)] *)
Fixpoint index_from (i : Z) (v : list pynum) (x : pynum) : result Z :=
  match v with
  | [] => Raise ValueError
  | y :: v' => if py_is_or_eq y x then Ok i else index_from (i + 1) v' x
  end.

Definition py_index (v : list pynum) (x : pynum) : result Z := index_from 0 v x.

(** An index of Python: negative ones count from the end. *)
Definition norm_index {A : Type} (v : list A) (i : Z) : option nat :=
  let n := Z.of_nat (length v) in
  if (0 <=? i) && (i <? n) then Some (Z.to_nat i)
  else if (- n <=? i) && (i <? 0) then Some (Z.to_nat (n + i))
  else None.

(** [v[i]] *)
Definition py_getitem {A : Type} (v : list A) (i : Z) : result A :=
  match norm_index v i ≫= (v !!.) with
  | Some x => Ok x
  | None => Raise IndexError
  end.

(** [v[i] = x] *)
Definition py_setitem {A : Type} (v : list A) (i : Z) (x : A) : result (list A) :=
  match norm_index v i with
  | Some k => Ok (<[k := x]> v)
  | None => Raise IndexError
  end.

(** [range(n)] and [[x] * n] *)
Definition py_range (n : Z) : list Z := Z.of_nat <$> seq 0 (Z.to_nat n).
Definition py_repeat {A : Type} (x : A) (n : Z) : list A := replicate (Z.to_nat n) x.

(** [for i in items: v = body(i, v)] *)
Fixpoint py_for {A S : Type} (items : list A) (body : A -> S -> result S) (s : S)
  : result S :=
  match items with
  | [] => Ok s
  | i :: items' => s' ← body i s; py_for items' body s'
  end.

(** [np.mean(xs)]; the mean of no numbers is a fresh [nan]. *)
Definition np_mean (site : alloc) (xs : list Q) : pynum :=
  match xs with
  | [] => NaN site
  | _ => Num (foldr Qplus 0%Q xs / inject_Z (Z.of_nat (length xs)))%Q
  end.

(** ** The environment *)

(** One entry of [env.vehicles]. *)
Record vehicle : Type := {
  lane : Z;
  max_speed : Q;
  speed : Q;
}.

(** [env.scenario] *)
Record Scenario : Type := {
  scenario_lanes : Z;
  scenario_length : Q;
}.

(** The environment class is not part of these sources: the methods that the
    controllers call are fields here, and every function of the right type
    is an environment.  A query for a car returns [None] or an id. *)
Record Env : Type := {
  scenario : Scenario;
  vehicles : gmap string vehicle;
  get_leading_car : string -> Z -> option string;
  get_trailing_car : string -> Z -> option string;
  get_x_by_id : string -> Q;
  get_cars : string -> Q -> Q -> Z -> list string;
}.

(** [d[k]] *)
Definition py_dict_get {V : Type} (d : gmap string V) (k : string) : result V :=
  match d !! k with
  | Some x => Ok x
  | None => Raise KeyError
  end.

(** The car that [if not carID] lets through: neither [None] nor the empty
    string. *)
Definition truthy (o : option string) : option string :=
  match o with
  | Some s => if String.eqb s EmptyString then None else Some s
  | None => None
  end.

(** The gaps to the car ahead and to the car behind, wrapped around the
    circular track (the locals [headway] and [footway] of both variants). *)
Definition headway (env : Env) (carID leadID : string) : result Q :=
  let leadPos := get_x_by_id env leadID in
  let thisPos := get_x_by_id env carID in
  py_mod (leadPos - thisPos) (scenario_length (scenario env)).

Definition footway (env : Env) (carID trailID : string) : result Q :=
  let trailPos := get_x_by_id env trailID in
  let thisPos := get_x_by_id env carID in
  py_mod (thisPos - trailPos) (scenario_length (scenario env)).

(** ** The controllers that never change lanes *)

Module StaticLaneChanger.

Record t : Type := { veh_id : string }.

Definition get_action (self : t) (env : Env) : result Z :=
  vd ← py_dict_get (vehicles env) (veh_id self);
  mret (lane vd).

End StaticLaneChanger.

Definition never_change_lanes_controller : string -> Env -> result Z :=
  fun carID env =>
    vd ← py_dict_get (vehicles env) carID;
    mret (lane vd).

(** ** The stochastic lane changer, as a class *)

Module StochasticLaneChanger.

Record t : Type := {
  veh_id : string;
  speedThreshold : Q;
  prob : Q;
  dxBack : Q;
  dxForward : Q;
  gapBack : Q;
  gapForward : Q;
}.

(** [StochasticLaneChanger(veh_id)], with the default parameters. *)
Definition default (veh_id : string) : t :=
  {| veh_id := veh_id; speedThreshold := 5; prob := 1 # 2; dxBack := 0;
     dxForward := 60; gapBack := 10; gapForward := 5 |}.

(** One iteration of [for lane in range(num_lanes)]. *)
Definition lane_body (self : t) (env : Env) (l : Z) (v : list pynum)
  : result (list pynum) :=
  let leadID := get_leading_car env (veh_id self) l in
  let trailID := get_trailing_car env (veh_id self) l in
  match truthy leadID, truthy trailID with
  | Some leadID, Some trailID =>
      hw ← headway env (veh_id self) leadID;
      fw ← footway env (veh_id self) trailID;
      if Qlt_bool hw (gapForward self) || Qlt_bool fw (gapBack self) then
        py_setitem v l (Num 0)
      else
        let other_car_ids :=
          get_cars env (veh_id self) (dxBack self) (dxForward self) l in
        speeds ← mapM (fun other_id =>
                         vd ← py_dict_get (vehicles env) other_id;
                         mret (speed vd)) other_car_ids;
        py_setitem v l (np_mean (mean_site l) speeds)
  | _, _ =>
      vd ← py_dict_get (vehicles env) (veh_id self);
      py_setitem v l (Num (max_speed vd))
  end.

(** The list [v] when the loop is over. *)
Definition lane_scores (self : t) (env : Env) : result (list pynum) :=
  let num_lanes := scenario_lanes (scenario env) in
  py_for (py_range num_lanes) (lane_body self env)
         (py_repeat (Num 0) (scenario_lanes (scenario env))).

Definition get_action (self : t) (env : Env) : M Z :=
  v ← lift (lane_scores self env);
  maxv ← lift (py_max v);
  maxl ← lift (py_index v maxv);
  vd ← lift (py_dict_get (vehicles env) (veh_id self));
  myv ← lift (py_getitem v (lane vd));
  vd1 ← lift (py_dict_get (vehicles env) (veh_id self));
  if negb (maxl =? lane vd1) && py_gt (py_sub maxv myv) (Num (speedThreshold self))
  then
    r ← random_random;
    if Qlt_bool r (prob self) then mret maxl
    else vd2 ← lift (py_dict_get (vehicles env) (veh_id self)); mret (lane vd2)
  else vd2 ← lift (py_dict_get (vehicles env) (veh_id self)); mret (lane vd2).

End StochasticLaneChanger.

(** ** The stochastic lane changer, as a closure *)

(** The parameters of [stochastic_lane_changer] are captured by the inner
    function [controller]: they are the variables of this section. *)
Section stochastic_lane_changer.

Variables speedThreshold prob dxBack dxForward gapBack gapForward : Q.

(** One iteration of [for lane in range(num_lanes)]. *)
Definition controller_body (carID : string) (env : Env) (l : Z) (v : list pynum)
  : result (list pynum) :=
  let leadID := get_leading_car env carID l in
  let trailID := get_trailing_car env carID l in
  match truthy leadID, truthy trailID with
  | Some leadID, Some trailID =>
      hw ← headway env carID leadID;
      fw ← footway env carID trailID;
      if Qlt_bool hw gapForward || Qlt_bool fw gapBack then
        py_setitem v l (Num 0)
      else
        let other_car_ids := get_cars env carID dxBack dxForward l in
        speeds ← mapM (fun other_id =>
                         vd ← py_dict_get (vehicles env) other_id;
                         mret (speed vd)) other_car_ids;
        py_setitem v l (np_mean (mean_site l) speeds)
  | _, _ =>
      vd ← py_dict_get (vehicles env) carID;
      py_setitem v l (Num (max_speed vd))
  end.

(** The list [v] when the loop is over. *)
Definition controller_scores (carID : string) (env : Env) : result (list pynum) :=
  let num_lanes := scenario_lanes (scenario env) in
  py_for (py_range num_lanes) (controller_body carID env)
         (py_repeat (Num 0) (scenario_lanes (scenario env))).

Definition controller (carID : string) (env : Env) : M Z :=
  v ← lift (controller_scores carID env);
  maxv ← lift (py_max v);
  maxl ← lift (py_index v maxv);
  vd ← lift (py_dict_get (vehicles env) carID);
  myv ← lift (py_getitem v (lane vd));
  vd1 ← lift (py_dict_get (vehicles env) carID);
  if negb (maxl =? lane vd1) && py_gt (py_sub maxv myv) (Num speedThreshold)
  then
    r ← random_random;
    if Qlt_bool r prob then mret maxl
    else vd2 ← lift (py_dict_get (vehicles env) carID); mret (lane vd2)
  else vd2 ← lift (py_dict_get (vehicles env) carID); mret (lane vd2).

Definition stochastic_lane_changer : string -> Env -> M Z := controller.

End stochastic_lane_changer.

(** [stochastic_lane_changer()], with the default parameters. *)
Definition stochastic_lane_changer_default : string -> Env -> M Z :=
  stochastic_lane_changer 5 (1 # 2) 0 60 10 5.

(** ** Example environments *)

(** A two-lane loop of length 200 whose only car is ["A"], in lane [c]. *)
Definition env_alone (c : Z) : Env :=
  {| scenario := {| scenario_lanes := 2; scenario_length := 200 |};
     vehicles := {[ "A" := {| lane := c; max_speed := 30; speed := 10 |} ]};
     get_leading_car := fun _ _ => None;
     get_trailing_car := fun _ _ => None;
     get_x_by_id := fun _ => 0%Q;
     get_cars := fun _ _ _ _ => [] |}.

(** A two-lane loop of length 200.  ["A"] drives in lane 0 at position 190,
    ["B"] 20 ahead of it (position 10, past the wrap) and ["C"] 50 behind
    it.  Lane 1 is empty. *)
Definition env_wrap : Env :=
  {| scenario := {| scenario_lanes := 2; scenario_length := 200 |};
     vehicles := {[ "A" := {| lane := 0; max_speed := 30; speed := 10 |};
                    "B" := {| lane := 0; max_speed := 30; speed := 12 |};
                    "C" := {| lane := 0; max_speed := 30; speed := 8 |} ]};
     get_leading_car := fun _ l => if l =? 0 then Some "B" else None;
     get_trailing_car := fun _ l => if l =? 0 then Some "C" else None;
     get_x_by_id := fun i =>
       (if String.eqb i "A" then 190 else if String.eqb i "B" then 10 else 140)%Q;
     get_cars := fun _ _ _ l => if l =? 0 then ["B"] else [] |}.

(** As [env_wrap], with ["B"] only 3 ahead of ["A"]. *)
Definition env_close : Env :=
  {| scenario := scenario env_wrap;
     vehicles := vehicles env_wrap;
     get_leading_car := get_leading_car env_wrap;
     get_trailing_car := get_trailing_car env_wrap;
     get_x_by_id := fun i =>
       (if String.eqb i "A" then 190 else if String.eqb i "B" then 193 else 140)%Q;
     get_cars := get_cars env_wrap |}.

(** As [env_wrap], with ["B"] 70 ahead of ["A"]: out of the window of 60
    that ["A"] looks at, which holds no car. *)
Definition env_far : Env :=
  {| scenario := scenario env_wrap;
     vehicles := vehicles env_wrap;
     get_leading_car := get_leading_car env_wrap;
     get_trailing_car := get_trailing_car env_wrap;
     get_x_by_id := fun i =>
       (if String.eqb i "A" then 190 else if String.eqb i "B" then 60 else 140)%Q;
     get_cars := fun _ _ _ _ => [] |}.

(** A three-lane loop of length 200.  ["A"] drives in lane 1 at position
    190, with ["D"] 3 ahead of it and ["E"] 50 behind.  In lane 0, ["B"] is
    70 ahead of ["A"] and ["C"] 50 behind, so that the window of 60 ahead of
    ["A"] holds no car of lane 0.  Lane 2 is empty. *)
Definition env_three : Env :=
  {| scenario := {| scenario_lanes := 3; scenario_length := 200 |};
     vehicles := {[ "A" := {| lane := 1; max_speed := 30; speed := 10 |};
                    "B" := {| lane := 0; max_speed := 30; speed := 12 |};
                    "C" := {| lane := 0; max_speed := 30; speed := 8 |};
                    "D" := {| lane := 1; max_speed := 30; speed := 9 |};
                    "E" := {| lane := 1; max_speed := 30; speed := 9 |} ]};
     get_leading_car := fun _ l =>
       if l =? 0 then Some "B" else if l =? 1 then Some "D" else None;
     get_trailing_car := fun _ l =>
       if l =? 0 then Some "C" else if l =? 1 then Some "E" else None;
     get_x_by_id := fun i =>
       (if String.eqb i "A" then 190 else if String.eqb i "B" then 60
        else if String.eqb i "D" then 193 else 140)%Q;
     get_cars := fun _ _ _ l => if l =? 1 then ["D"] else [] |}.

(** A generator whose every draw is [r]. *)
Definition const_rng (r : Q) : rng := fun _ => r.

(** ** Vocabulary of the properties *)

Import StochasticLaneChanger.

(** The object that holds the parameters captured by the closure. *)
Definition of_params (carID : string)
  (speedThreshold prob dxBack dxForward gapBack gapForward : Q)
  : StochasticLaneChanger.t :=
  {| StochasticLaneChanger.veh_id := carID;
     StochasticLaneChanger.speedThreshold := speedThreshold;
     StochasticLaneChanger.prob := prob;
     StochasticLaneChanger.dxBack := dxBack;
     StochasticLaneChanger.dxForward := dxForward;
     StochasticLaneChanger.gapBack := gapBack;
     StochasticLaneChanger.gapForward := gapForward |}.

(** The value that the iteration for lane [l] stores in [v[l]]. *)
Definition lane_score (self : t) (env : Env) (l : Z) : result pynum :=
  match truthy (get_leading_car env (veh_id self) l),
        truthy (get_trailing_car env (veh_id self) l) with
  | Some leadID, Some trailID =>
      hw ← headway env (veh_id self) leadID;
      fw ← footway env (veh_id self) trailID;
      if Qlt_bool hw (gapForward self) || Qlt_bool fw (gapBack self) then Ok (Num 0)
      else
        speeds ← mapM (fun other_id =>
                         vd ← py_dict_get (vehicles env) other_id;
                         mret (speed vd))
                      (get_cars env (veh_id self) (dxBack self) (dxForward self) l);
        Ok (np_mean (mean_site l) speeds)
  | _, _ =>
      vd ← py_dict_get (vehicles env) (veh_id self);
      Ok (Num (max_speed vd))
  end.

(** The loop gives lane [l] the score [x]: the iteration for [l] stores [x]
    at index [l] of the list, and a finished loop leaves it there. *)
Definition scores_lane (body : Z -> list pynum -> result (list pynum))
  (scores : result (list pynum)) (num_lanes l : Z) (x : pynum) : Prop :=
  (forall v : list pynum,
      0 <= l < Z.of_nat (length v) -> body l v = Ok (<[Z.to_nat l := x]> v)) /\
  (forall v : list pynum,
      0 <= l < num_lanes -> scores = Ok v -> py_getitem v l = Ok x).

(** [w] is the distance [d] wrapped on a track of length [L]: it lies in
    [0, L) and differs from [d] by a whole number of laps. *)
Definition wraps (L d w : Q) : Prop :=
  (0 <= w)%Q /\ (w < L)%Q /\ exists k : Z, (d == inject_Z k * L + w)%Q.

(** The lane that [v.index(max(v))] names. *)
Definition best_lane (v : list pynum) : result Z :=
  maxv ← py_max v; py_index v maxv.

(** The three conditions under which the change to [maxl] is returned, for
    the draw [r]. *)
Definition change_condition (speedThreshold prob : Q)
  (maxv myv : pynum) (maxl c : Z) (r : Q) : Prop :=
  maxl <> c /\
  py_gt (py_sub maxv myv) (Num speedThreshold) = true /\
  (r < prob)%Q.

(** The decision as a function of the parameters, the environment and one
    draw. *)
Definition decision (self : t) (env : Env) (r : Q) : result Z :=
  fst (get_action self env (const_rng r)).

(** A generator that gives [r] first and [r'] ever after. *)
Definition rng_then (r r' : Q) : rng :=
  fun n => match n with O => r | S _ => r' end.

(** The controller that [stochastic_lane_changer] returns when it is given
    the parameters of [self]. *)
Definition closure_of (self : t) : Env -> M Z :=
  stochastic_lane_changer (speedThreshold self) (prob self) (dxBack self)
    (dxForward self) (gapBack self) (gapForward self) (veh_id self).

(** Lane [l] has no leader or no follower for the vehicle. *)
Definition empty_lane (self : t) (env : Env) (l : Z) : Prop :=
  truthy (get_leading_car env (veh_id self) l) = None \/
  truthy (get_trailing_car env (veh_id self) l) = None.

(** Lane [l] has a leader and a follower, at the gaps [hw] and [fw]. *)
Definition lane_gaps (self : t) (env : Env) (l : Z) (hw fw : Q) : Prop :=
  exists leadID trailID : string,
    truthy (get_leading_car env (veh_id self) l) = Some leadID /\
    truthy (get_trailing_car env (veh_id self) l) = Some trailID /\
    headway env (veh_id self) leadID = Ok hw /\
    footway env (veh_id self) trailID = Ok fw.

(** One of the gaps of lane [l] is below its minimum. *)
Definition unsafe_lane (self : t) (env : Env) (l : Z) : Prop :=
  exists hw fw : Q,
    lane_gaps self env l hw fw /\ (hw < gapForward self \/ fw < gapBack self)%Q.

(** Both gaps of lane [l] reach their minimum. *)
Definition safe_lane (self : t) (env : Env) (l : Z) : Prop :=
  exists hw fw : Q,
    lane_gaps self env l hw fw /\ (gapForward self <= hw)%Q /\ (gapBack self <= fw)%Q.

(** The cars that the vehicle sees in lane [l]. *)
Definition window (self : t) (env : Env) (l : Z) : list string :=
  get_cars env (veh_id self) (dxBack self) (dxForward self) l.

(** What an exception of [get_action] tells about the environment. *)
Definition exception_cause (self : t) (env : Env) (e : exn) : Prop :=
  let num_lanes := scenario_lanes (scenario env) in
  match e with
  | ValueError => num_lanes <= 0
  | ZeroDivisionError => (scenario_length (scenario env) == 0)%Q
  | IndexError =>
      exists vd : vehicle,
        vehicles env !! veh_id self = Some vd /\
        ~ (- num_lanes <= lane vd < num_lanes)
  | KeyError =>
      vehicles env !! veh_id self = None \/
      exists (l : Z) (id : string),
        0 <= l < num_lanes /\ id ∈ window self env l /\ vehicles env !! id = None
  end.

(** A loop without lanes, and one without length. *)
Definition env_no_lanes : Env :=
  {| scenario := {| scenario_lanes := 0; scenario_length := 200 |};
     vehicles := vehicles env_wrap;
     get_leading_car := get_leading_car env_wrap;
     get_trailing_car := get_trailing_car env_wrap;
     get_x_by_id := get_x_by_id env_wrap;
     get_cars := get_cars env_wrap |}.

Definition env_no_length : Env :=
  {| scenario := {| scenario_lanes := 2; scenario_length := 0 |};
     vehicles := vehicles env_wrap;
     get_leading_car := get_leading_car env_wrap;
     get_trailing_car := get_trailing_car env_wrap;
     get_x_by_id := get_x_by_id env_wrap;
     get_cars := get_cars env_wrap |}.

(** [env.vehicles] holds every car of every window of the vehicle. *)
Definition known_window (self : t) (env : Env) : Prop :=
  forall (l : Z) (id : string),
    0 <= l < scenario_lanes (scenario env) ->
    id ∈ window self env l -> is_Some (vehicles env !! id).

(** No speed and no maximal speed of [env.vehicles] is negative. *)
Definition nonneg_speeds (env : Env) : Prop :=
  forall (id : string) (vd : vehicle),
    vehicles env !! id = Some vd -> (0 <= speed vd)%Q /\ (0 <= max_speed vd)%Q.

(** Lane [l] has a leader and a follower at safe gaps, and no car in the
    window. *)
Definition empty_window (self : t) (env : Env) (l : Z) : Prop :=
  safe_lane self env l /\ window self env l = [].

(** A run that draws no number: it leaves every generator as it is and its
    result is the same from every generator. *)
Definition draws_nothing (run : M Z) : Prop :=
  forall g g' : rng, snd (run g) = g /\ fst (run g) = fst (run g').

(** A run that draws one number, and returns a lane. *)
Definition draws_once (run : M Z) : Prop :=
  forall g : rng, snd (run g) = snd (random g) /\ exists d : Z, fst (run g) = Ok d.

(** ** Machine floats *)

(** The values of binary64 that are numbers are rationals; an operation
    rounds its exact result to the nearest of them, ties to even. *)

Definition pow2 (e : Z) : Q := (2 ^ e)%Q.

(** The integer part of the binary logarithm of a positive rational. *)
Definition Qlog2 (x : Q) : Z :=
  let l := Z.log2 (Qnum x) - Z.log2 (Zpos (Qden x)) in
  if Qle_bool (pow2 l) x then l else l - 1.

(** The nearest integer, the even one of two that are as near. *)
Definition rne (q : Q) : Z :=
  let f := Qfloor q in
  match (q - inject_Z f ?= 1 # 2)%Q with
  | Lt => f
  | Gt => f + 1
  | Eq => if Z.even f then f else f + 1
  end.

(** The exponent of the last of the 53 bits of a number of the size of [x];
    it stops at -1074, where the subnormal numbers begin. *)
Definition ulp_exp (x : Q) : Z := Z.max (-1074) (Qlog2 (Qabs x) - 52).

(** The nearest binary64 number, exponents unbounded above. *)
Definition round64 (x : Q) : Q :=
  let x := Qred x in
  if Qeq_bool x 0 then 0%Q
  else (inject_Z (rne (x / pow2 (ulp_exp x))) * pow2 (ulp_exp x))%Q.

(** A Python [float]. *)
Inductive float64 : Type :=
  | Finite (q : Q)
  | Infinity (negative : bool)
  | NotANumber.

(** The float of an exact result: a rounding that reaches 2^1024 is an
    infinity. *)
Definition fl_round (x : Q) : float64 :=
  let r := round64 x in
  if Qle_bool (pow2 1024) (Qabs r) then Infinity (Qlt_bool x 0) else Finite r.

(** [a - b] on floats *)
Definition float_sub (a b : Q) : float64 := fl_round (a - b).

(** [x < 0] on floats *)
Definition fl_negative (x : float64) : bool :=
  match x with
  | Finite q => Qlt_bool q 0
  | Infinity negative => negative
  | NotANumber => false
  end.

(** The integer part of a rational, towards 0. *)
Definition Qtrunc (q : Q) : Z := if Qle_bool 0 q then Qfloor q else Qceiling q.

(** [fmod(x, y)] of C, on numbers: exact, with the sign of [x]. *)
Definition c_fmod (x y : Q) : Q := (x - y * inject_Z (Qtrunc (x / y)))%Q.

(** [vx % wx] on floats, as CPython computes it: [fmod], then one addition
    of [wx] when the signs differ; [fmod] of an infinity is [nan]. *)
Definition float_rem (vx : float64) (wx : Q) : result float64 :=
  if Qeq_bool wx 0 then Raise ZeroDivisionError
  else
    match vx with
    | Finite vx =>
        let m := c_fmod vx wx in
        if negb (Qeq_bool m 0) then
          if xorb (Qlt_bool wx 0) (Qlt_bool m 0)
          then Ok (Finite (round64 (m + wx)))
          else Ok (Finite m)
        else Ok (Finite 0)
    | Infinity _ => Ok NotANumber
    | NotANumber => Ok NotANumber
    end.

(** The locals [headway] and [footway], on floats. *)
Definition headway_float (env : Env) (carID leadID : string) : result float64 :=
  let leadPos := get_x_by_id env leadID in
  let thisPos := get_x_by_id env carID in
  float_rem (float_sub leadPos thisPos) (scenario_length (scenario env)).

Definition footway_float (env : Env) (carID trailID : string) : result float64 :=
  let trailPos := get_x_by_id env trailID in
  let thisPos := get_x_by_id env carID in
  float_rem (float_sub thisPos trailPos) (scenario_length (scenario env)).

(** The gap [g] that the code computes from the positions [x] and [y] on a
    track of length [L]: with [d] the float [x - y] and [r] the distance [d]
    wrapped exactly, [g] is [r], or [r] rounded, and lies between 0 and [L],
    both included.  It is [nan] when [x - y] is an infinity. *)
Definition float_wrapped (L x y : Q) (g : float64) : Prop :=
  match float_sub x y with
  | Finite d =>
      exists h r : Q,
        g = Finite h /\ wraps L d r /\
        (0 <= h)%Q /\ (h <= L)%Q /\ ((h == r)%Q \/ (h == round64 r)%Q)
  | _ => g = NotANumber
  end.

(** The number that a float of the standard library's specification of
    binary64 stands for. *)
Definition SF2Q (x : SpecFloat.spec_float) : option Q :=
  match x with
  | SpecFloat.S754_zero _ => Some 0%Q
  | SpecFloat.S754_finite s m e =>
      Some ((if s then - inject_Z (Zpos m) else inject_Z (Zpos m)) * pow2 e)%Q
  | _ => None
  end.

(** The float [x] of that specification is the rounding of [q]. *)
Definition rounds_to (q : Q) (x : SpecFloat.spec_float) : bool :=
  match SF2Q x with
  | Some y => Qeq_bool y (round64 q)
  | None => false
  end.

(** As [env_wrap], with ["A"] at position 2^-60 and ["B"] at position 0: the
    leader is a hair behind the vehicle, all but a lap ahead. *)
Definition env_hair : Env :=
  {| scenario := scenario env_wrap;
     vehicles := vehicles env_wrap;
     get_leading_car := get_leading_car env_wrap;
     get_trailing_car := get_trailing_car env_wrap;
     get_x_by_id := fun i =>
       (if String.eqb i "A" then 1 # 2 ^ 60 else if String.eqb i "B" then 0 else 140)%Q;
     get_cars := get_cars env_wrap |}.

(** * Properties *)

(** ** Numbers *)

Lemma Qlt_bool_true (x y : Q) : Qlt_bool x y = true <-> (x < y)%Q.
Proof.
  unfold Qlt_bool. rewrite negb_true_iff. split.
  - intros H. apply Qnot_le_lt. intros Hle.
    apply Qle_bool_iff in Hle. congruence.
  - intros H. destruct (Qle_bool y x) eqn:E; [|reflexivity].
    apply Qle_bool_iff in E. exfalso. exact (Qlt_not_le _ _ H E).
Qed.

Lemma Qlt_bool_false (x y : Q) : Qlt_bool x y = false <-> (y <= x)%Q.
Proof.
  unfold Qlt_bool. rewrite negb_false_iff. apply Qle_bool_iff.
Qed.

Lemma Qlt_bool_irrefl (x : Q) : Qlt_bool x x = false.
Proof. apply Qlt_bool_false, Qle_refl. Qed.

(** ** Lists, loops *)

Lemma mapM_result_lookup {A B : Type} (f : A -> result B) (l : list A) (ys : list B) :
  mapM f l = Ok ys ->
  length ys = length l /\
  forall (i : nat) (a : A), l !! i = Some a -> exists y, f a = Ok y /\ ys !! i = Some y.
Proof.
  revert ys. induction l as [|a l IH]; intros ys H; simpl in H.
  - injection H as <-. split; [reflexivity|]. intros i a Hi. discriminate.
  - destruct (f a) as [y|e] eqn:Ea; simpl in H; [|discriminate].
    destruct (mapM f l) as [ys'|e] eqn:El; simpl in H; [|discriminate].
    injection H as <-. destruct (IH ys' eq_refl) as [Hlen Hlook].
    split; [simpl; congruence|].
    intros [|i] b Hi; simpl in Hi.
    + injection Hi as <-. exists y. split; [exact Ea | reflexivity].
    + apply Hlook, Hi.
Qed.

Lemma mapM_result_ok {A B : Type} (f : A -> result B) (g : A -> B) (l : list A) :
  (forall a, a ∈ l -> f a = Ok (g a)) -> mapM f l = Ok (g <$> l).
Proof.
  induction l as [|a l IH]; intros H; simpl; [reflexivity|].
  rewrite (H a) by apply list_elem_of_here. simpl.
  rewrite IH; [reflexivity|]. intros b Hb. apply H, list_elem_of_further, Hb.
Qed.

Lemma norm_index_nat {A : Type} (v : list A) (k : nat) :
  (k < length v)%nat -> norm_index v (Z.of_nat k) = Some k.
Proof.
  intros Hk. unfold norm_index.
  replace (0 <=? Z.of_nat k) with true by (symmetry; apply Z.leb_le; lia).
  replace (Z.of_nat k <? Z.of_nat (length v)) with true
    by (symmetry; apply Z.ltb_lt; lia).
  simpl. rewrite Nat2Z.id. reflexivity.
Qed.

Lemma norm_index_range {A : Type} (v : list A) (i : Z) :
  0 <= i < Z.of_nat (length v) -> norm_index v i = Some (Z.to_nat i).
Proof.
  intros Hi. rewrite <- (Z2Nat.id i) at 1 by lia. apply norm_index_nat. lia.
Qed.

Lemma py_setitem_nat {A : Type} (v : list A) (k : nat) (x : A) :
  (k < length v)%nat -> py_setitem v (Z.of_nat k) x = Ok (<[k := x]> v).
Proof. intros Hk. unfold py_setitem. rewrite norm_index_nat by exact Hk. reflexivity. Qed.

(** A loop that stores [f l] at index [l], for [l] from [k] on, computes the
    list of the values of [f]; it raises what the first failing [f l]
    raises. *)
Lemma py_for_setitem (f : Z -> result pynum) (z : pynum) (m : nat) :
  forall (k : nat) (done : list pynum),
    length done = k ->
    py_for (Z.of_nat <$> seq k m)
           (fun l v => x ← f l; py_setitem v l x)
           (done ++ replicate m z)
    = (xs ← mapM f (Z.of_nat <$> seq k m); Ok (done ++ xs)).
Proof.
  induction m as [|m IH]; intros k done Hk; simpl.
  - reflexivity.
  - destruct (f (Z.of_nat k)) as [x|e]; simpl; [|reflexivity].
    rewrite py_setitem_nat by (rewrite length_app; simpl; lia).
    simpl.
    replace (<[k:=x]> (done ++ z :: replicate m z))
      with ((done ++ [x]) ++ replicate m z).
    2:{ rewrite <- Hk, insert_app_r_alt, Nat.sub_diag by lia. simpl.
        rewrite <- app_assoc. reflexivity. }
    etransitivity.
    { apply (IH (S k) (done ++ [x])). rewrite length_app. simpl. lia. }
    change (list_fmap nat Z Z.of_nat (seq (S k) m)) with (Z.of_nat <$> seq (S k) m).
    destruct (mapM f (Z.of_nat <$> seq (S k) m)) as [xs|e]; simpl; [|reflexivity].
    rewrite <- app_assoc. reflexivity.
Qed.

Lemma py_for_range (f : Z -> result pynum) (z : pynum) (n : Z) :
  py_for (py_range n) (fun l v => x ← f l; py_setitem v l x) (py_repeat z n)
  = mapM f (py_range n).
Proof.
  unfold py_range, py_repeat.
  etransitivity; [exact (py_for_setitem f z (Z.to_nat n) 0 [] eq_refl)|].
  destruct (mapM f _); reflexivity.
Qed.

Lemma py_for_ext {A S : Type} (items : list A) (body body' : A -> S -> result S) (s : S) :
  (forall i s, body i s = body' i s) -> py_for items body s = py_for items body' s.
Proof.
  intros H. revert s. induction items as [|i items IH]; intros s; simpl.
  - reflexivity.
  - rewrite H. destruct (body' i s); simpl; [apply IH | reflexivity].
Qed.

Lemma py_range_lookup (n l : Z) :
  0 <= l < n -> py_range n !! Z.to_nat l = Some l.
Proof.
  intros Hl. unfold py_range. rewrite list_lookup_fmap.
  rewrite lookup_seq_lt by lia. simpl. f_equal. lia.
Qed.

Lemma py_range_length (n : Z) : length (py_range n) = Z.to_nat n.
Proof. unfold py_range. rewrite length_fmap, length_seq. reflexivity. Qed.

(** ** The two variants run the same code *)

Lemma controller_body_class (self : t) (env : Env) (l : Z) (v : list pynum) :
  controller_body (dxBack self) (dxForward self) (gapBack self) (gapForward self)
                  (veh_id self) env l v
  = lane_body self env l v.
Proof. reflexivity. Qed.

Lemma controller_scores_class (self : t) (env : Env) :
  controller_scores (dxBack self) (dxForward self) (gapBack self) (gapForward self)
                    (veh_id self) env
  = lane_scores self env.
Proof. reflexivity. Qed.

Lemma controller_class (self : t) (env : Env) (g : rng) :
  controller (speedThreshold self) (prob self) (dxBack self) (dxForward self)
             (gapBack self) (gapForward self) (veh_id self) env g
  = get_action self env g.
Proof. reflexivity. Qed.

(** ** The score of one lane *)

Lemma lane_body_score (self : t) (env : Env) (l : Z) (v : list pynum) :
  lane_body self env l v = (x ← lane_score self env l; py_setitem v l x).
Proof.
  unfold lane_body, lane_score.
  destruct (truthy (get_leading_car env (veh_id self) l)) as [leadID|];
    [destruct (truthy (get_trailing_car env (veh_id self) l)) as [trailID|]|].
  - destruct (headway env (veh_id self) leadID) as [hw|e]; simpl; [|reflexivity].
    destruct (footway env (veh_id self) trailID) as [fw|e]; simpl; [|reflexivity].
    destruct (Qlt_bool hw (gapForward self) || Qlt_bool fw (gapBack self));
      [reflexivity|].
    destruct (mapM _ _); reflexivity.
  - destruct (py_dict_get (vehicles env) (veh_id self)); reflexivity.
  - destruct (py_dict_get (vehicles env) (veh_id self)); reflexivity.
Qed.

Lemma lane_scores_mapM (self : t) (env : Env) :
  lane_scores self env
  = mapM (lane_score self env) (py_range (scenario_lanes (scenario env))).
Proof.
  unfold lane_scores. rewrite <- py_for_range with (z := Num 0).
  apply py_for_ext. intros l v. apply lane_body_score.
Qed.

Lemma py_getitem_range {A : Type} (v : list A) (i : Z) (x : A) :
  0 <= i < Z.of_nat (length v) -> v !! Z.to_nat i = Some x -> py_getitem v i = Ok x.
Proof.
  intros Hi Hx. unfold py_getitem. rewrite norm_index_range by exact Hi.
  simpl. rewrite Hx. reflexivity.
Qed.

Lemma lane_score_scores_lane (self : t) (env : Env) (l : Z) (x : pynum) :
  lane_score self env l = Ok x ->
  scores_lane (lane_body self env) (lane_scores self env)
              (scenario_lanes (scenario env)) l x.
Proof.
  intros Hx. split.
  - intros v Hl. rewrite lane_body_score, Hx. simpl.
    unfold py_setitem. rewrite norm_index_range by exact Hl. reflexivity.
  - intros v Hl Hv. rewrite lane_scores_mapM in Hv.
    apply mapM_result_lookup in Hv as [Hlen Hlook].
    destruct (Hlook _ _ (py_range_lookup _ _ Hl)) as (y & Hy & Hvy).
    rewrite py_range_length in Hlen.
    apply py_getitem_range; [lia | congruence].
Qed.

(** ** Lane scores *)

(** C2.  In a lane where a leader and a follower are found, if the wrapped
    headway is less than [gapForward] or the wrapped footway is less than
    [gapBack], the score of the lane is exactly 0, in the class and in the
    closure, whatever the cars and speeds in the window are. *)
Theorem unsafe_gap_scores_zero (self : t) (env : Env) (l : Z)
    (leadID trailID : string) (hw fw : Q) :
  truthy (get_leading_car env (veh_id self) l) = Some leadID ->
  truthy (get_trailing_car env (veh_id self) l) = Some trailID ->
  headway env (veh_id self) leadID = Ok hw ->
  footway env (veh_id self) trailID = Ok fw ->
  (hw < gapForward self \/ fw < gapBack self)%Q ->
  scores_lane (lane_body self env) (lane_scores self env)
              (scenario_lanes (scenario env)) l (Num 0) /\
  scores_lane (controller_body (dxBack self) (dxForward self) (gapBack self)
                               (gapForward self) (veh_id self) env)
              (controller_scores (dxBack self) (dxForward self) (gapBack self)
                                 (gapForward self) (veh_id self) env)
              (scenario_lanes (scenario env)) l (Num 0).
Proof.
  intros Hlead Htrail Hhw Hfw Hgap.
  assert (Hs : lane_score self env l = Ok (Num 0)).
  { unfold lane_score. rewrite Hlead, Htrail, Hhw, Hfw. simpl.
    replace (Qlt_bool hw (gapForward self) || Qlt_bool fw (gapBack self))
      with true; [reflexivity|].
    symmetry. apply orb_true_iff.
    destruct Hgap as [H|H]; [left|right]; apply Qlt_bool_true; exact H. }
  split; apply (lane_score_scores_lane self env l _ Hs).
Qed.

Lemma unsafe_gap_scores_zero_witness :
  scores_lane (lane_body (default "A") env_close)
              (lane_scores (default "A") env_close) 2 0 (Num 0) /\
  scores_lane (controller_body 0 60 10 5 "A" env_close)
              (controller_scores 0 60 10 5 "A" env_close) 2 0 (Num 0).
Proof.
  apply (unsafe_gap_scores_zero (default "A") env_close 0 "B" "C" 3 50).
  - reflexivity.
  - reflexivity.
  - reflexivity.
  - reflexivity.
  - left. reflexivity.
Defined.

(** C3.  In a lane where the leader query or the follower query reports no
    car, the score of the lane is exactly the [max_speed] of the vehicle, in
    the class and in the closure. *)
Theorem empty_lane_scores_max_speed (self : t) (env : Env) (l : Z) (vd : vehicle) :
  vehicles env !! veh_id self = Some vd ->
  truthy (get_leading_car env (veh_id self) l) = None \/
  truthy (get_trailing_car env (veh_id self) l) = None ->
  scores_lane (lane_body self env) (lane_scores self env)
              (scenario_lanes (scenario env)) l (Num (max_speed vd)) /\
  scores_lane (controller_body (dxBack self) (dxForward self) (gapBack self)
                               (gapForward self) (veh_id self) env)
              (controller_scores (dxBack self) (dxForward self) (gapBack self)
                                 (gapForward self) (veh_id self) env)
              (scenario_lanes (scenario env)) l (Num (max_speed vd)).
Proof.
  intros Hvd Hnone.
  assert (Hs : lane_score self env l = Ok (Num (max_speed vd))).
  { unfold lane_score, py_dict_get. rewrite Hvd.
    destruct Hnone as [-> | ->]; [reflexivity|].
    destruct (truthy (get_leading_car env (veh_id self) l)); reflexivity. }
  split; apply (lane_score_scores_lane self env l _ Hs).
Qed.

Lemma empty_lane_scores_max_speed_witness :
  scores_lane (lane_body (default "A") env_wrap)
              (lane_scores (default "A") env_wrap) 2 1 (Num 30) /\
  scores_lane (controller_body 0 60 10 5 "A" env_wrap)
              (controller_scores 0 60 10 5 "A" env_wrap) 2 1 (Num 30).
Proof.
  apply (empty_lane_scores_max_speed (default "A") env_wrap 1
           {| lane := 0; max_speed := 30; speed := 10 |}).
  - reflexivity.
  - left. reflexivity.
Defined.

(** C7.  In a lane with a leader and a follower at safe gaps, when the
    window that the vehicle looks at holds no car, the score of the lane is
    the [nan] that [np.mean] makes of the empty list: no exception, and not
    a number either. *)
Theorem empty_window_scores_nan (self : t) (env : Env) (l : Z)
    (leadID trailID : string) (hw fw : Q) :
  truthy (get_leading_car env (veh_id self) l) = Some leadID ->
  truthy (get_trailing_car env (veh_id self) l) = Some trailID ->
  headway env (veh_id self) leadID = Ok hw ->
  footway env (veh_id self) trailID = Ok fw ->
  (gapForward self <= hw)%Q -> (gapBack self <= fw)%Q ->
  get_cars env (veh_id self) (dxBack self) (dxForward self) l = [] ->
  scores_lane (lane_body self env) (lane_scores self env)
              (scenario_lanes (scenario env)) l (NaN (mean_site l)) /\
  scores_lane (controller_body (dxBack self) (dxForward self) (gapBack self)
                               (gapForward self) (veh_id self) env)
              (controller_scores (dxBack self) (dxForward self) (gapBack self)
                                 (gapForward self) (veh_id self) env)
              (scenario_lanes (scenario env)) l (NaN (mean_site l)).
Proof.
  intros Hlead Htrail Hhw Hfw Hgf Hgb Hcars.
  assert (Hs : lane_score self env l = Ok (NaN (mean_site l))).
  { unfold lane_score. rewrite Hlead, Htrail, Hhw, Hfw, Hcars. simpl.
    apply Qlt_bool_false in Hgf, Hgb. rewrite Hgf, Hgb. reflexivity. }
  split; apply (lane_score_scores_lane self env l _ Hs).
Qed.

Lemma empty_window_scores_nan_witness :
  scores_lane (lane_body (default "A") env_far)
              (lane_scores (default "A") env_far) 2 0 (NaN (mean_site 0)) /\
  scores_lane (controller_body 0 60 10 5 "A" env_far)
              (controller_scores 0 60 10 5 "A" env_far) 2 0 (NaN (mean_site 0)).
Proof.
  apply (empty_window_scores_nan (default "A") env_far 0 "B" "C" 70 50).
  - reflexivity.
  - reflexivity.
  - reflexivity.
  - reflexivity.
  - unfold Qle. simpl. lia.
  - unfold Qle. simpl. lia.
  - reflexivity.
Defined.

(** ** The decision *)

(** The end of [get_action], once the scores, the best lane and the score of
    the current lane are there: the draw is taken only if the first two
    conditions hold. *)
Lemma get_action_run (self : t) (env : Env) (g : rng)
    (v : list pynum) (maxv myv : pynum) (maxl : Z) (vd : vehicle) :
  lane_scores self env = Ok v ->
  py_max v = Ok maxv ->
  py_index v maxv = Ok maxl ->
  vehicles env !! veh_id self = Some vd ->
  py_getitem v (lane vd) = Ok myv ->
  get_action self env g =
    if negb (maxl =? lane vd) && py_gt (py_sub maxv myv) (Num (speedThreshold self))
    then (Ok (if Qlt_bool (fst (random g)) (prob self) then maxl else lane vd),
          snd (random g))
    else (Ok (lane vd), g).
Proof.
  intros Hv Hmax Hidx Hvd Hmy.
  unfold get_action, py_dict_get. rewrite Hv, Hvd. simpl.
  unfold mbind, M_bind, lift. rewrite Hmax, Hidx, Hmy. simpl.
  destruct (negb (maxl =? lane vd) && py_gt (py_sub maxv myv) (Num (speedThreshold self)));
    [|reflexivity].
  unfold random_random. simpl.
  destruct (Qlt_bool (g 0%nat) (prob self)); reflexivity.
Qed.

(** C1.  With [c] the lane of the vehicle, [maxl] the best lane, [maxv] its
    score, [myv] the score of lane [c] and [r] the draw: the decision is
    [maxl] when [maxl] differs from [c], [maxv - myv] exceeds the threshold
    and [r] is below the probability; in every other case it is [c].  So a
    change is decided iff the three conditions hold, and when [maxl] is [c]
    the decision is [c] whatever the scores and the draw.  The class and the
    closure decide alike. *)
Theorem decision_rule (self : t) (env : Env) (g : rng)
    (v : list pynum) (maxv myv : pynum) (maxl : Z) (vd : vehicle) :
  lane_scores self env = Ok v ->
  py_max v = Ok maxv ->
  py_index v maxv = Ok maxl ->
  vehicles env !! veh_id self = Some vd ->
  py_getitem v (lane vd) = Ok myv ->
  let c := lane vd in
  let change :=
    change_condition (speedThreshold self) (prob self) maxv myv maxl c (fst (random g)) in
  exists d : Z,
    fst (get_action self env g) = Ok d /\
    fst (stochastic_lane_changer (speedThreshold self) (prob self) (dxBack self)
           (dxForward self) (gapBack self) (gapForward self) (veh_id self) env g)
      = Ok d /\
    (change -> d = maxl) /\
    (~ change -> d = c) /\
    (d = maxl /\ d <> c <-> change) /\
    (maxl = c -> d = c).
Proof.
  intros Hv Hmax Hidx Hvd Hmy c change.
  unfold stochastic_lane_changer. rewrite controller_class.
  rewrite (get_action_run self env g v maxv myv maxl vd Hv Hmax Hidx Hvd Hmy).
  subst change. unfold change_condition. fold c.
  destruct (Z.eqb_spec maxl c) as [Heq|Hne]; simpl.
  { exists c. repeat split; try tauto; intros; tauto. }
  destruct (py_gt (py_sub maxv myv) (Num (speedThreshold self))) eqn:Hgt; simpl.
  2:{ exists c. split; [reflexivity|]. split; [reflexivity|].
      split; [intros (_ & H & _); discriminate|].
      split; [reflexivity|].
      split; [|intros; reflexivity].
      split; [intros [_ H]; contradiction | intros (_ & H & _); discriminate]. }
  destruct (Qlt_bool (g 0%nat) (prob self)) eqn:Hr.
  - apply Qlt_bool_true in Hr. exists maxl. tauto.
  - apply Qlt_bool_false in Hr. exists c.
    assert (Hnr : ~ (g 0%nat < prob self)%Q) by (apply Qle_not_lt; exact Hr).
    split; [reflexivity|]. split; [reflexivity|]. tauto.
Qed.

Lemma decision_rule_witness :
  exists d : Z,
    fst (get_action (default "A") env_close (const_rng 0)) = Ok d /\ d = 1.
Proof.
  destruct (decision_rule (default "A") env_close (const_rng 0)
              [Num 0; Num 30] (Num 30) (Num 0) 1
              {| lane := 0; max_speed := 30; speed := 10 |})
    as (d & Hd & _ & Hchange & _).
  - reflexivity.
  - reflexivity.
  - reflexivity.
  - reflexivity.
  - reflexivity.
  - exists d. split; [exact Hd|]. apply Hchange.
    unfold change_condition. simpl.
    split; [lia|]. split; reflexivity.
Defined.

(** ** The class and the closure *)

(** C8.  For all six parameters, every vehicle id, environment and state of
    the random generator, [StochasticLaneChanger.get_action] and the
    controller that [stochastic_lane_changer] returns give the same result:
    the same decision or the same exception, and the same generator state
    afterwards.  The defaults of the two agree as well. *)
Theorem class_closure_equivalent
    (speedThreshold prob dxBack dxForward gapBack gapForward : Q)
    (carID : string) (env : Env) (g : rng) :
  get_action {| veh_id := carID; speedThreshold := speedThreshold; prob := prob;
                dxBack := dxBack; dxForward := dxForward;
                gapBack := gapBack; gapForward := gapForward |} env g
  = stochastic_lane_changer speedThreshold prob dxBack dxForward gapBack gapForward
      carID env g
  /\ get_action (default carID) env g = stochastic_lane_changer_default carID env g.
Proof.
  split.
  - unfold stochastic_lane_changer. symmetry.
    apply (controller_class
             {| veh_id := carID; speedThreshold := speedThreshold; prob := prob;
                dxBack := dxBack; dxForward := dxForward;
                gapBack := gapBack; gapForward := gapForward |}).
  - unfold stochastic_lane_changer_default, stochastic_lane_changer. symmetry.
    apply (controller_class (default carID)).
Qed.

(** ** Determinism *)

Lemma get_action_first_draw (self : t) (env : Env) (g : rng) :
  fst (get_action self env g) = decision self env (fst (random g)).
Proof.
  unfold decision, get_action.
  unfold mbind, M_bind, lift.
  destruct (lane_scores self env) as [v|e]; [|reflexivity].
  destruct (py_max v) as [maxv|e]; [|reflexivity].
  destruct (py_index v maxv) as [maxl|e]; [|reflexivity].
  destruct (py_dict_get (vehicles env) (veh_id self)) as [vd|e]; [|reflexivity].
  destruct (py_getitem v (lane vd)) as [myv|e]; [|reflexivity].
  destruct (negb (maxl =? lane vd) && py_gt (py_sub maxv myv) (Num (speedThreshold self)));
    [|reflexivity].
  unfold random_random, const_rng. simpl.
  destruct (Qlt_bool (g 0%nat) (prob self)); reflexivity.
Qed.

(** C9.  The decision of an invocation is a function of the environment, the
    parameters and the draw that the generator is about to give; two
    invocations on the same environment with the same parameters, from
    generator states that give the same draw, decide the same, in the class
    and in the closure. *)
Theorem decision_deterministic (self : t) (env : Env) (g1 g2 : rng) :
  fst (random g1) = fst (random g2) ->
  fst (get_action self env g1) = decision self env (fst (random g1)) /\
  fst (get_action self env g1) = fst (get_action self env g2) /\
  fst (stochastic_lane_changer (speedThreshold self) (prob self) (dxBack self)
         (dxForward self) (gapBack self) (gapForward self) (veh_id self) env g1)
  = fst (stochastic_lane_changer (speedThreshold self) (prob self) (dxBack self)
           (dxForward self) (gapBack self) (gapForward self) (veh_id self) env g2).
Proof.
  intros Hdraw. unfold stochastic_lane_changer. rewrite !controller_class.
  rewrite !get_action_first_draw, Hdraw. auto.
Qed.

Lemma decision_deterministic_witness :
  fst (get_action (default "A") env_close (rng_then 0 (1 # 3)))
  = fst (get_action (default "A") env_close (rng_then 0 (2 # 3))).
Proof.
  apply (decision_deterministic (default "A") env_close
           (rng_then 0 (1 # 3)) (rng_then 0 (2 # 3))).
  reflexivity.
Defined.

(** ** The static lane changers *)

(** C10.  When the vehicle is in the environment, [StaticLaneChanger.get_action]
    and the controller of [never_change_lanes_controller] both return its
    cached lane, so they agree and never ask for a change. *)
Theorem static_lane_changers_keep_lane (carID : string) (env : Env) (vd : vehicle) :
  vehicles env !! carID = Some vd ->
  StaticLaneChanger.get_action {| StaticLaneChanger.veh_id := carID |} env
    = Ok (lane vd) /\
  never_change_lanes_controller carID env = Ok (lane vd).
Proof.
  intros Hvd.
  unfold StaticLaneChanger.get_action, never_change_lanes_controller, py_dict_get.
  simpl. rewrite Hvd. split; reflexivity.
Qed.

Lemma static_lane_changers_keep_lane_witness :
  StaticLaneChanger.get_action {| StaticLaneChanger.veh_id := "A" |} (env_alone 1)
    = Ok 1 /\
  never_change_lanes_controller "A" (env_alone 1) = Ok 1.
Proof.
  apply (static_lane_changers_keep_lane "A" (env_alone 1)
           {| lane := 1; max_speed := 30; speed := 10 |}).
  reflexivity.
Defined.

(** ** Every lane empty *)

Lemma max_from_replicate (x : pynum) (k : nat) :
  py_gt x x = false -> max_from x (replicate k x) = x.
Proof.
  intros Hx. induction k as [|k IH]; simpl; [reflexivity|].
  rewrite Hx. exact IH.
Qed.

Lemma py_gt_irrefl (x : pynum) : py_gt x x = false.
Proof. destruct x as [q|a]; simpl; [apply Qlt_bool_irrefl | reflexivity]. Qed.

Lemma py_is_or_eq_refl (x : pynum) : py_is_or_eq x x = true.
Proof.
  destruct x as [q|[i|]]; simpl;
    [apply Qeq_bool_refl | apply Z.eqb_refl | reflexivity].
Qed.

Lemma best_lane_replicate (x : pynum) (k : nat) :
  py_max (replicate (S k) x) = Ok x /\ py_index (replicate (S k) x) x = Ok 0.
Proof.
  split.
  - simpl. rewrite max_from_replicate by apply py_gt_irrefl. reflexivity.
  - unfold py_index. simpl. rewrite py_is_or_eq_refl. reflexivity.
Qed.

(** With no leader or no follower in any lane, every lane scores the
    [max_speed] of the vehicle. *)
Lemma lane_scores_all_empty (self : t) (env : Env) (vd : vehicle) :
  vehicles env !! veh_id self = Some vd ->
  (forall l : Z, 0 <= l < scenario_lanes (scenario env) ->
     truthy (get_leading_car env (veh_id self) l) = None \/
     truthy (get_trailing_car env (veh_id self) l) = None) ->
  lane_scores self env
  = Ok (py_repeat (Num (max_speed vd)) (scenario_lanes (scenario env))).
Proof.
  intros Hvd Hempty. rewrite lane_scores_mapM.
  rewrite (mapM_result_ok _ (fun _ => Num (max_speed vd))).
  - f_equal. unfold py_repeat.
    rewrite (const_fmap (fun _ => Num (max_speed vd)) _ (Num (max_speed vd)))
      by reflexivity.
    rewrite py_range_length. reflexivity.
  - intros l Hl. unfold py_range in Hl.
    apply list_elem_of_fmap in Hl as (k & -> & Hk).
    apply elem_of_seq in Hk.
    unfold lane_score, py_dict_get. rewrite Hvd.
    destruct (Hempty (Z.of_nat k)) as [-> | ->]; [lia|reflexivity|].
    destruct (truthy (get_leading_car env (veh_id self) (Z.of_nat k))); reflexivity.
Qed.

(** C6, as the code has it.  When the vehicle, in lane [c] of the track, finds
    no leader or no follower in any lane, every lane scores its [max_speed]
    and the best lane is lane 0, the first of the ties; with a threshold that
    is not negative the decision is [c], for every state of the generator,
    and no number is drawn.  The class and the closure decide alike. *)
Theorem all_empty_no_change (self : t) (env : Env) (vd : vehicle) :
  let num_lanes := scenario_lanes (scenario env) in
  let c := lane vd in
  vehicles env !! veh_id self = Some vd ->
  0 <= c < num_lanes ->
  (forall l : Z, 0 <= l < num_lanes ->
     truthy (get_leading_car env (veh_id self) l) = None \/
     truthy (get_trailing_car env (veh_id self) l) = None) ->
  (0 <= speedThreshold self)%Q ->
  exists v : list pynum,
    lane_scores self env = Ok v /\
    (forall l : Z, 0 <= l < num_lanes -> py_getitem v l = Ok (Num (max_speed vd))) /\
    best_lane v = Ok 0 /\
    (forall g : rng, get_action self env g = (Ok c, g)) /\
    (forall g : rng,
       stochastic_lane_changer (speedThreshold self) (prob self) (dxBack self)
         (dxForward self) (gapBack self) (gapForward self) (veh_id self) env g
       = (Ok c, g)).
Proof.
  intros num_lanes c Hvd Hc Hempty Hthr.
  pose proof (lane_scores_all_empty self env vd Hvd Hempty) as Hv.
  fold num_lanes in Hv. unfold py_repeat in Hv.
  destruct (Z.to_nat num_lanes) as [|k] eqn:Hn; [lia|].
  destruct (best_lane_replicate (Num (max_speed vd)) k) as [Hmax Hidx].
  assert (Hget : forall l : Z, 0 <= l < num_lanes ->
            py_getitem (replicate (S k) (Num (max_speed vd))) l = Ok (Num (max_speed vd))).
  { intros l Hl. apply py_getitem_range.
    - rewrite length_replicate. lia.
    - apply lookup_replicate_2. lia. }
  assert (Hrun : forall g : rng, get_action self env g = (Ok c, g)).
  { intros g.
    rewrite (get_action_run self env g _ _ _ _ vd Hv Hmax Hidx Hvd (Hget _ Hc)).
    replace (py_gt (py_sub (Num (max_speed vd)) (Num (max_speed vd)))
                   (Num (speedThreshold self))) with false.
    - rewrite andb_false_r. reflexivity.
    - symmetry. simpl. apply Qlt_bool_false.
      assert (E : (max_speed vd - max_speed vd == 0)%Q) by ring.
      rewrite E. exact Hthr. }
  exists (replicate (S k) (Num (max_speed vd))).
  split; [exact Hv|]. split; [exact Hget|].
  split; [unfold best_lane; rewrite Hmax; exact Hidx|].
  split; [exact Hrun|].
  intros g. unfold stochastic_lane_changer. rewrite controller_class. apply Hrun.
Qed.

Lemma all_empty_no_change_witness :
  exists v : list pynum,
    lane_scores (default "A") (env_alone 1) = Ok v /\
    (forall l : Z, 0 <= l < 2 -> py_getitem v l = Ok (Num 30)) /\
    best_lane v = Ok 0 /\
    (forall g : rng, get_action (default "A") (env_alone 1) g = (Ok 1, g)) /\
    (forall g : rng, stochastic_lane_changer 5 (1 # 2) 0 60 10 5 "A" (env_alone 1) g
                     = (Ok 1, g)).
Proof.
  apply (all_empty_no_change (default "A") (env_alone 1)
           {| lane := 1; max_speed := 30; speed := 10 |}).
  - reflexivity.
  - simpl. lia.
  - intros l _. left. reflexivity.
  - unfold Qle. simpl. lia.
Defined.

(** C6, as the spec has it, fails.  A lone vehicle in lane 1 of two lanes
    finds both lanes empty and both score 30: the best lane is lane 0, not
    the lane of the vehicle.  With the threshold -1 and a draw below the
    probability, the decision is lane 0 as well: the vehicle changes. *)
Lemma all_empty_best_lane_counterexample :
  let env := env_alone 1 in
  let vd := {| lane := 1; max_speed := 30; speed := 10 |} in
  vehicles env !! "A" = Some vd /\
  (forall l : Z, get_leading_car env "A" l = None /\
                 get_trailing_car env "A" l = None) /\
  lane_scores (default "A") env = Ok [Num 30; Num 30] /\
  best_lane [Num 30; Num 30] = Ok 0 /\
  best_lane [Num 30; Num 30] <> Ok (lane vd) /\
  fst (get_action (of_params "A" (-1) (1 # 2) 0 60 10 5) env (const_rng 0)) = Ok 0 /\
  fst (get_action (of_params "A" (-1) (1 # 2) 0 60 10 5) env (const_rng 0))
    <> Ok (lane vd).
Proof.
  simpl. split; [reflexivity|]. split; [intros l; split; reflexivity|].
  split; [reflexivity|]. split; [reflexivity|]. split; [discriminate|].
  split; [reflexivity|]. discriminate.
Qed.

(** ** The best lane *)

Lemma max_from_nan (a : alloc) (v : list pynum) : max_from (NaN a) v = NaN a.
Proof.
  induction v as [|x v IH]; simpl; [reflexivity|].
  destruct x; simpl; exact IH.
Qed.

(** A [nan] in lane 0 is the maximum for [max], and lane 0 the best lane,
    whatever the other lanes score. *)
Lemma best_lane_nan_first (a : alloc) (v : list pynum) :
  py_max (NaN a :: v) = Ok (NaN a) /\ best_lane (NaN a :: v) = Ok 0.
Proof.
  unfold best_lane. cbn [py_max]. rewrite max_from_nan. split; [reflexivity|].
  change (py_index (NaN a :: v) (NaN a) = Ok 0).
  unfold py_index. cbn [index_from].
  rewrite (py_is_or_eq_refl (NaN a)). reflexivity.
Qed.

(** C5 fails on the code where lane 0 scores [nan].  In [env_three] the
    scores are [nan], 0 and 30: the best lane of the code is lane 0, though
    lane 2 has the greatest score, and the vehicle stays in lane 1 (score 0)
    even when the draw allows the change. *)
Theorem best_lane_not_argmax_with_nan :
  let self := default "A" in
  lane_scores self env_three = Ok [NaN (mean_site 0); Num 0; Num 30] /\
  py_max [NaN (mean_site 0); Num 0; Num 30] = Ok (NaN (mean_site 0)) /\
  best_lane [NaN (mean_site 0); Num 0; Num 30] = Ok 0 /\
  py_gt (Num 30) (Num 0) = true /\
  fst (get_action self env_three (const_rng 0)) = Ok 1 /\
  fst (stochastic_lane_changer_default "A" env_three (const_rng 0)) = Ok 1.
Proof. simpl. repeat split; reflexivity. Qed.

(** On numbers, [max] is the greatest item. *)
Lemma max_from_numbers (qs : list Q) :
  forall m : Q,
  exists m' : Q,
    max_from (Num m) (Num <$> qs) = Num m' /\
    (m <= m')%Q /\
    (forall q : Q, q ∈ qs -> (q <= m')%Q) /\
    (m' = m \/ m' ∈ qs).
Proof.
  induction qs as [|q qs IH]; intros m.
  - exists m. split; [reflexivity|]. split; [apply Qle_refl|].
    split; [|left; reflexivity]. intros q Hq. inversion Hq.
  - cbn [fmap list_fmap max_from py_gt].
    change (list_fmap Q pynum Num qs) with (Num <$> qs).
    destruct (Qlt_bool m q) eqn:E.
    + apply Qlt_bool_true in E.
      destruct (IH q) as (m' & Hmax & Hle & Hall & Hin).
      exists m'. split; [exact Hmax|].
      split; [apply Qlt_le_weak, (Qlt_le_trans _ _ _ E Hle)|].
      split.
      * intros q' Hq'. apply elem_of_cons in Hq' as [-> | Hq'];
          [exact Hle | apply Hall, Hq'].
      * right. destruct Hin as [-> | Hin];
          [apply list_elem_of_here | apply list_elem_of_further, Hin].
    + apply Qlt_bool_false in E.
      destruct (IH m) as (m' & Hmax & Hle & Hall & Hin).
      exists m'. split; [exact Hmax|]. split; [exact Hle|].
      split.
      * intros q' Hq'. apply elem_of_cons in Hq' as [-> | Hq'];
          [exact (Qle_trans _ _ _ E Hle) | apply Hall, Hq'].
      * destruct Hin as [-> | Hin];
          [left; reflexivity | right; apply list_elem_of_further, Hin].
Qed.

(** [index] returns the first position whose item is, or equals, [x]. *)
Lemma index_from_first (x : pynum) (v : list pynum) :
  forall i : Z,
    (exists y, y ∈ v /\ py_is_or_eq y x = true) ->
    exists j : nat,
      index_from i v x = Ok (i + Z.of_nat j) /\
      (exists y, v !! j = Some y /\ py_is_or_eq y x = true) /\
      (forall (j' : nat) (y' : pynum),
          (j' < j)%nat -> v !! j' = Some y' -> py_is_or_eq y' x = false).
Proof.
  induction v as [|y v IH]; intros i (y0 & Hin & Heq).
  - inversion Hin.
  - cbn [index_from]. destruct (py_is_or_eq y x) eqn:E.
    + exists 0%nat. split; [f_equal; lia|].
      split; [exists y; split; [reflexivity | exact E]|].
      intros j' y' Hj'. lia.
    + apply elem_of_cons in Hin as [-> | Hin]; [congruence|].
      destruct (IH (i + 1) (ex_intro _ y0 (conj Hin Heq))) as (j & Hidx & Hj & Hfirst).
      exists (S j). split; [rewrite Hidx; f_equal; lia|].
      split; [exact Hj|].
      intros [|j'] y' Hlt Hy'; simpl in Hy'.
      * injection Hy' as <-. exact E.
      * apply (Hfirst j' y'); [lia | exact Hy'].
Qed.

(** Where every lane scores a number, the best lane is the argmax of the
    scores, and the lowest lane among those that tie for the maximum. *)
Lemma best_lane_argmax_of_numbers (qs : list Q) :
  qs <> [] ->
  exists (j : nat) (m : Q),
    py_max (Num <$> qs) = Ok (Num m) /\
    best_lane (Num <$> qs) = Ok (Z.of_nat j) /\
    (exists q : Q, qs !! j = Some q /\ (q == m)%Q) /\
    (forall q : Q, q ∈ qs -> (q <= m)%Q) /\
    (forall (j' : nat) (q' : Q), (j' < j)%nat -> qs !! j' = Some q' -> (q' < m)%Q).
Proof.
  destruct qs as [|q0 qs]; [congruence|]. intros _.
  destruct (max_from_numbers qs q0) as (m & Hmax & Hle & Hall & Hin).
  assert (Hall' : forall q : Q, q ∈ q0 :: qs -> (q <= m)%Q).
  { intros q Hq. apply elem_of_cons in Hq as [-> | Hq]; [exact Hle | apply Hall, Hq]. }
  assert (Hm : m ∈ q0 :: qs).
  { destruct Hin as [-> | Hin];
      [apply list_elem_of_here | apply list_elem_of_further, Hin]. }
  assert (Hpm : py_max (Num <$> q0 :: qs) = Ok (Num m)).
  { cbn [fmap list_fmap py_max]. f_equal. exact Hmax. }
  destruct (index_from_first (Num m) (Num <$> q0 :: qs) 0) as (j & Hidx & (y & Hy & Hyeq) & Hfirst).
  { exists (Num m). split; [|apply py_is_or_eq_refl].
    apply list_elem_of_fmap. exists m. split; [reflexivity | exact Hm]. }
  exists j, m. split; [exact Hpm|].
  split; [unfold best_lane; rewrite Hpm; exact Hidx|].
  rewrite list_lookup_fmap in Hy.
  destruct ((q0 :: qs) !! j) as [q|] eqn:Hq; [|discriminate].
  injection Hy as <-. split.
  - exists q. split; [reflexivity|]. apply Qeq_bool_iff. exact Hyeq.
  - split; [exact Hall'|].
    intros j' q' Hlt Hq'.
    assert (Hne : py_is_or_eq (Num q') (Num m) = false).
    { apply (Hfirst j'); [exact Hlt|]. rewrite list_lookup_fmap, Hq'. reflexivity. }
    apply Qeq_bool_neq in Hne.
    assert (Hle' : (q' <= m)%Q).
    { apply Hall'. apply list_elem_of_lookup. exists j'. exact Hq'. }
    apply Qle_lteq in Hle' as [Hlt' | Heq]; [exact Hlt' | contradiction].
Qed.

(** ** The controller returns *)

Lemma max_from_elem (v : list pynum) : forall m : pynum, max_from m v ∈ m :: v.
Proof.
  induction v as [|x v IH]; intros m; simpl.
  - apply list_elem_of_here.
  - specialize (IH (if py_gt x m then x else m)).
    apply elem_of_cons in IH as [-> | IH].
    + destruct (py_gt x m);
        [apply list_elem_of_further, list_elem_of_here | apply list_elem_of_here].
    + apply list_elem_of_further, list_elem_of_further, IH.
Qed.

(** [v.index(max(v))] raises nothing on a list that is not empty, and names
    one of its positions. *)
Lemma best_lane_total (v : list pynum) :
  v <> [] ->
  exists (maxv : pynum) (maxl : Z),
    py_max v = Ok maxv /\ py_index v maxv = Ok maxl /\
    0 <= maxl < Z.of_nat (length v).
Proof.
  destruct v as [|x v]; [congruence|]. intros _.
  destruct (index_from_first (max_from x v) (x :: v) 0)
    as (j & Hidx & (y & Hy & _) & _).
  { exists (max_from x v). split; [apply max_from_elem | apply py_is_or_eq_refl]. }
  exists (max_from x v), (0 + Z.of_nat j). split; [reflexivity|].
  split; [exact Hidx|].
  apply lookup_lt_Some in Hy. lia.
Qed.

Lemma lane_scores_length (self : t) (env : Env) (v : list pynum) :
  lane_scores self env = Ok v -> length v = Z.to_nat (scenario_lanes (scenario env)).
Proof.
  rewrite lane_scores_mapM. intros Hv.
  apply mapM_result_lookup in Hv as [Hlen _].
  rewrite Hlen. apply py_range_length.
Qed.

(** Once the loop is over without an exception, for a vehicle of the
    environment whose lane is a lane of the track, [get_action] returns: the
    lane of the vehicle or the best lane. *)
Lemma get_action_returns (self : t) (env : Env) (g : rng)
    (v : list pynum) (vd : vehicle) :
  lane_scores self env = Ok v ->
  vehicles env !! veh_id self = Some vd ->
  0 <= lane vd < scenario_lanes (scenario env) ->
  exists d : Z,
    fst (get_action self env g) = Ok d /\
    (d = lane vd \/ best_lane v = Ok d) /\
    0 <= d < scenario_lanes (scenario env).
Proof.
  intros Hv Hvd Hc.
  pose proof (lane_scores_length self env v Hv) as Hlen.
  assert (Hne : v <> []) by (intros ->; simpl in Hlen; lia).
  destruct (best_lane_total v Hne) as (maxv & maxl & Hmax & Hidx & Hl).
  destruct (v !! Z.to_nat (lane vd)) as [myv|] eqn:Hmy.
  2:{ apply lookup_ge_None in Hmy. lia. }
  assert (Hget : py_getitem v (lane vd) = Ok myv)
    by (apply py_getitem_range; [lia | exact Hmy]).
  rewrite (get_action_run self env g v maxv myv maxl vd Hv Hmax Hidx Hvd Hget).
  assert (Hbest : best_lane v = Ok maxl)
    by (unfold best_lane; rewrite Hmax; exact Hidx).
  destruct (negb (maxl =? lane vd) && py_gt (py_sub maxv myv) (Num (speedThreshold self)));
    simpl; [destruct (Qlt_bool (g 0%nat) (prob self))|].
  - exists maxl. split; [reflexivity|]. split; [right; exact Hbest | lia].
  - exists (lane vd). split; [reflexivity|]. split; [left; reflexivity | lia].
  - exists (lane vd). split; [reflexivity|]. split; [left; reflexivity | lia].
Qed.

(** * Further properties of the controllers *)

(** ** Exceptions *)

Lemma closure_of_class (self : t) (env : Env) (g : rng) :
  closure_of self env g = get_action self env g.
Proof. reflexivity. Qed.

Lemma py_mod_raise (a b : Q) (e : exn) :
  py_mod a b = Raise e -> e = ZeroDivisionError /\ (b == 0)%Q.
Proof.
  unfold py_mod. destruct (Qeq_bool b 0) eqn:E; [|discriminate].
  intros H. injection H as <-. split; [reflexivity | apply Qeq_bool_iff, E].
Qed.

Lemma py_mod_ok (a b : Q) : ~ (b == 0)%Q -> exists r : Q, py_mod a b = Ok r.
Proof.
  intros Hb. unfold py_mod. destruct (Qeq_bool b 0) eqn:E.
  - apply Qeq_bool_iff in E. contradiction.
  - eexists. reflexivity.
Qed.

Lemma py_dict_get_raise {V : Type} (d : gmap string V) (k : string) (e : exn) :
  py_dict_get d k = Raise e -> e = KeyError /\ d !! k = None.
Proof.
  unfold py_dict_get. destruct (d !! k); [discriminate|].
  intros H. injection H as <-. split; reflexivity.
Qed.

Lemma mapM_result_raise {A B : Type} (f : A -> result B) (l : list A) (e : exn) :
  mapM f l = Raise e -> exists a : A, a ∈ l /\ f a = Raise e.
Proof.
  induction l as [|a l IH]; simpl; [discriminate|].
  destruct (f a) as [y|e'] eqn:Ea; simpl.
  - destruct (mapM f l) as [ys|e'] eqn:El; simpl; [discriminate|].
    intros H. injection H as ->. destruct (IH eq_refl) as (b & Hb & Hfb).
    exists b. split; [apply list_elem_of_further, Hb | exact Hfb].
  - intros H. injection H as ->. exists a. split; [apply list_elem_of_here | exact Ea].
Qed.

Lemma py_range_elem (n l : Z) : l ∈ py_range n <-> 0 <= l < n.
Proof.
  unfold py_range. rewrite list_elem_of_fmap. split.
  - intros (k & -> & Hk). apply elem_of_seq in Hk. lia.
  - intros Hl. exists (Z.to_nat l). split; [lia|]. apply elem_of_seq. lia.
Qed.

(** An iteration of the loop raises for two reasons only: a track without
    length, or a car that [env.vehicles] does not know. *)
Lemma lane_score_raise (self : t) (env : Env) (l : Z) (e : exn) :
  lane_score self env l = Raise e ->
  (e = ZeroDivisionError /\ (scenario_length (scenario env) == 0)%Q) \/
  (e = KeyError /\
   (vehicles env !! veh_id self = None \/
    exists id : string, id ∈ window self env l /\ vehicles env !! id = None)).
Proof.
  unfold lane_score, window.
  destruct (truthy (get_leading_car env (veh_id self) l)) as [leadID|];
    [destruct (truthy (get_trailing_car env (veh_id self) l)) as [trailID|]|].
  - destruct (headway env (veh_id self) leadID) as [hw|e1] eqn:Ehw; simpl.
    2:{ intros H. injection H as ->. left. exact (py_mod_raise _ _ _ Ehw). }
    destruct (footway env (veh_id self) trailID) as [fw|e1] eqn:Efw; simpl.
    2:{ intros H. injection H as ->. left. exact (py_mod_raise _ _ _ Efw). }
    destruct (Qlt_bool hw (gapForward self) || Qlt_bool fw (gapBack self));
      [discriminate|].
    destruct (mapM _ _) as [speeds|e1] eqn:Es; simpl; [discriminate|].
    intros H. injection H as ->.
    apply mapM_result_raise in Es as (id & Hid & Hraise).
    destruct (py_dict_get (vehicles env) id) as [vd|e1] eqn:Eid; simpl in Hraise;
      [discriminate|].
    injection Hraise as ->. apply py_dict_get_raise in Eid as [-> Hnone].
    right. split; [reflexivity|]. right. exists id. split; assumption.
  - destruct (py_dict_get (vehicles env) (veh_id self)) as [vd|e1] eqn:Eid; simpl;
      [discriminate|].
    intros H. injection H as ->. apply py_dict_get_raise in Eid as [-> Hnone].
    right. split; [reflexivity | left; exact Hnone].
  - destruct (py_dict_get (vehicles env) (veh_id self)) as [vd|e1] eqn:Eid; simpl;
      [discriminate|].
    intros H. injection H as ->. apply py_dict_get_raise in Eid as [-> Hnone].
    right. split; [reflexivity | left; exact Hnone].
Qed.

Lemma lane_scores_raise (self : t) (env : Env) (e : exn) :
  lane_scores self env = Raise e ->
  exists l : Z, 0 <= l < scenario_lanes (scenario env) /\ lane_score self env l = Raise e.
Proof.
  rewrite lane_scores_mapM. intros H.
  apply mapM_result_raise in H as (l & Hl & Hraise).
  exists l. split; [apply py_range_elem, Hl | exact Hraise].
Qed.

Lemma norm_index_lt {A : Type} (v : list A) (i : Z) (k : nat) :
  norm_index v i = Some k -> (k < length v)%nat.
Proof.
  unfold norm_index.
  destruct ((0 <=? i) && (i <? Z.of_nat (length v))) eqn:E1.
  - apply andb_true_iff in E1 as [H1 H2]. apply Z.leb_le in H1. apply Z.ltb_lt in H2.
    intros H. injection H as <-. lia.
  - destruct ((- Z.of_nat (length v) <=? i) && (i <? 0)) eqn:E2; [|discriminate].
    apply andb_true_iff in E2 as [H1 H2]. apply Z.leb_le in H1. apply Z.ltb_lt in H2.
    intros H. injection H as <-. lia.
Qed.

Lemma norm_index_None {A : Type} (v : list A) (i : Z) :
  norm_index v i = None -> ~ (- Z.of_nat (length v) <= i < Z.of_nat (length v)).
Proof.
  unfold norm_index.
  destruct ((0 <=? i) && (i <? Z.of_nat (length v))) eqn:E1; [discriminate|].
  destruct ((- Z.of_nat (length v) <=? i) && (i <? 0)) eqn:E2; [discriminate|].
  intros _ Hi.
  apply andb_false_iff in E1. apply andb_false_iff in E2.
  rewrite Z.leb_gt, Z.ltb_ge in E1. rewrite Z.leb_gt, Z.ltb_ge in E2. lia.
Qed.

Lemma py_getitem_raise {A : Type} (v : list A) (i : Z) (e : exn) :
  py_getitem v i = Raise e ->
  e = IndexError /\ ~ (- Z.of_nat (length v) <= i < Z.of_nat (length v)).
Proof.
  unfold py_getitem. destruct (norm_index v i) as [k|] eqn:E; simpl.
  - apply norm_index_lt in E. destruct (v !! k) eqn:Ek; [discriminate|].
    apply lookup_ge_None in Ek. lia.
  - intros H. injection H as <-. split; [reflexivity | apply norm_index_None, E].
Qed.

(** The ways [get_action] can end.  Which one it is does not depend on the
    generator. *)
Lemma get_action_cases (self : t) (env : Env) :
  (exists e, lane_scores self env = Raise e /\
             forall g, get_action self env g = (Raise e, g)) \/
  (lane_scores self env = Ok [] /\
   forall g, get_action self env g = (Raise ValueError, g)) \/
  (exists (v : list pynum) (maxv : pynum) (maxl : Z),
     lane_scores self env = Ok v /\ v <> [] /\
     py_max v = Ok maxv /\ py_index v maxv = Ok maxl /\
     ((vehicles env !! veh_id self = None /\
       forall g, get_action self env g = (Raise KeyError, g)) \/
      (exists vd : vehicle,
         vehicles env !! veh_id self = Some vd /\
         ~ (- Z.of_nat (length v) <= lane vd < Z.of_nat (length v)) /\
         forall g, get_action self env g = (Raise IndexError, g)) \/
      (exists (vd : vehicle) (myv : pynum),
         vehicles env !! veh_id self = Some vd /\
         py_getitem v (lane vd) = Ok myv /\
         forall g, get_action self env g =
           if negb (maxl =? lane vd)
              && py_gt (py_sub maxv myv) (Num (speedThreshold self))
           then (Ok (if Qlt_bool (fst (random g)) (prob self) then maxl else lane vd),
                 snd (random g))
           else (Ok (lane vd), g)))).
Proof.
  destruct (lane_scores self env) as [v|e] eqn:Hv.
  2:{ left. exists e. split; [reflexivity|]. intros g.
      unfold get_action. rewrite Hv. reflexivity. }
  right. destruct v as [|x v'].
  { left. split; [reflexivity|]. intros g. unfold get_action. rewrite Hv. reflexivity. }
  right. set (v := x :: v') in *.
  assert (Hne : v <> []) by (subst v; discriminate).
  destruct (best_lane_total v Hne) as (maxv & maxl & Hmax & Hidx & _).
  exists v, maxv, maxl. split; [reflexivity|]. split; [exact Hne|].
  split; [exact Hmax|]. split; [exact Hidx|].
  destruct (vehicles env !! veh_id self) as [vd|] eqn:Hvd.
  2:{ left. split; [reflexivity|]. intros g.
      unfold get_action, py_dict_get. rewrite Hv, Hvd.
      unfold mbind, M_bind, lift. rewrite Hmax, Hidx. reflexivity. }
  right. destruct (py_getitem v (lane vd)) as [myv|e] eqn:Hmy.
  - right. exists vd, myv. split; [reflexivity|]. split; [exact Hmy|]. intros g.
    apply (get_action_run self env g v maxv myv maxl vd Hv Hmax Hidx Hvd Hmy).
  - left. exists vd. destruct (py_getitem_raise _ _ _ Hmy) as [-> Hout].
    split; [reflexivity|]. split; [exact Hout|]. intros g.
    unfold get_action, py_dict_get. rewrite Hv, Hvd.
    unfold mbind, M_bind, lift. rewrite Hmax, Hidx, Hmy. reflexivity.
Qed.

(** An exception of [get_action] leaves the generator as it was, is the
    exception of the closure as well, and has its cause in the environment:
    [ValueError] a track without lanes, [ZeroDivisionError] a track without
    length, [IndexError] a vehicle whose lane [c] is not an index of the list
    of scores ([-num_lanes <= c < num_lanes] fails), [KeyError] a vehicle, or
    a car of a window, that [env.vehicles] does not hold. *)
Theorem exceptions_have_causes (self : t) (env : Env) (g g' : rng) (e : exn) :
  get_action self env g = (Raise e, g') ->
  g' = g /\ closure_of self env g = (Raise e, g) /\ exception_cause self env e.
Proof.
  intros H. change (closure_of self env g) with (get_action self env g).
  destruct (get_action_cases self env)
    as [(e0 & Hv & Hrun) | [[Hv Hrun] | (v & maxv & maxl & Hv & Hne & Hmax & Hidx & Hrest)]].
  - rewrite Hrun in H. injection H as <- <-.
    split; [reflexivity|]. split; [apply Hrun|].
    apply lane_scores_raise in Hv as (l & Hl & Hraise).
    destruct (lane_score_raise self env l e0 Hraise)
      as [[-> HL] | [-> [Hnone | (id & Hid & Hnone)]]]; simpl.
    + exact HL.
    + left. exact Hnone.
    + right. exists l, id. auto.
  - rewrite Hrun in H. injection H as <- <-.
    split; [reflexivity|]. split; [apply Hrun|]. simpl.
    apply lane_scores_length in Hv. simpl in Hv. lia.
  - pose proof (lane_scores_length self env v Hv) as Hlen.
    assert (Hn : 0 < scenario_lanes (scenario env)).
    { destruct v; [congruence|]. simpl in Hlen. lia. }
    destruct Hrest as [[Hnone Hrun] | [(vd & Hvd & Hout & Hrun) | (vd & myv & Hvd & Hmy & Hrun)]].
    + rewrite Hrun in H. injection H as <- <-.
      split; [reflexivity|]. split; [apply Hrun|]. left. exact Hnone.
    + rewrite Hrun in H. injection H as <- <-.
      split; [reflexivity|]. split; [apply Hrun|]. simpl.
      exists vd. split; [exact Hvd|]. intros Hc. apply Hout. lia.
    + rewrite Hrun in H. exfalso.
      destruct (negb (maxl =? lane vd) && py_gt (py_sub maxv myv) (Num (speedThreshold self)));
        discriminate.
Qed.

Lemma exceptions_have_causes_witness :
  const_rng 0 = const_rng 0 /\
  closure_of (default "Z") env_wrap (const_rng 0) = (Raise KeyError, const_rng 0) /\
  exception_cause (default "Z") env_wrap KeyError.
Proof.
  apply (exceptions_have_causes (default "Z") env_wrap (const_rng 0) (const_rng 0) KeyError).
  reflexivity.
Defined.

(** On a track without lanes the loop does not run and [max] of the empty
    list raises [ValueError], whatever else the environment holds. *)
Theorem no_lanes_raises_ValueError (self : t) (env : Env) (g : rng) :
  scenario_lanes (scenario env) <= 0 ->
  get_action self env g = (Raise ValueError, g) /\
  closure_of self env g = (Raise ValueError, g).
Proof.
  intros Hn. change (closure_of self env g) with (get_action self env g).
  assert (Hv : lane_scores self env = Ok []).
  { unfold lane_scores, py_range, py_repeat.
    replace (Z.to_nat (scenario_lanes (scenario env))) with 0%nat by lia.
    reflexivity. }
  assert (Hrun : get_action self env g = (Raise ValueError, g))
    by (unfold get_action; rewrite Hv; reflexivity).
  split; exact Hrun.
Qed.

Lemma no_lanes_raises_ValueError_witness :
  get_action (default "A") env_no_lanes (const_rng 0) = (Raise ValueError, const_rng 0) /\
  closure_of (default "A") env_no_lanes (const_rng 0) = (Raise ValueError, const_rng 0).
Proof.
  apply (no_lanes_raises_ValueError (default "A") env_no_lanes (const_rng 0)).
  simpl. lia.
Defined.

(** For a vehicle that [env.vehicles] does not hold, [get_action] never
    returns a lane: it raises, and on a track with lanes and with a length
    the exception is [KeyError]. *)
Theorem unknown_vehicle_raises (self : t) (env : Env) (g : rng) :
  vehicles env !! veh_id self = None ->
  exists e : exn,
    get_action self env g = (Raise e, g) /\
    closure_of self env g = (Raise e, g) /\
    e <> IndexError /\
    (0 < scenario_lanes (scenario env) ->
     ~ (scenario_length (scenario env) == 0)%Q -> e = KeyError).
Proof.
  intros Hnone.
  destruct (get_action_cases self env)
    as [(e0 & Hv & Hrun) | [[Hv Hrun] | (v & maxv & maxl & Hv & Hne & Hmax & Hidx & Hrest)]].
  - exists e0. split; [apply Hrun|]. split; [apply Hrun|].
    apply lane_scores_raise in Hv as (l & Hl & Hraise).
    destruct (lane_score_raise self env l e0 Hraise) as [[-> HL] | [-> _]].
    + split; [discriminate|]. intros _ HL'. contradiction.
    + split; [discriminate|]. reflexivity.
  - exists ValueError. split; [apply Hrun|]. split; [apply Hrun|].
    split; [discriminate|]. intros Hn _.
    apply lane_scores_length in Hv. simpl in Hv. lia.
  - destruct Hrest as [[_ Hrun] | [(vd & Hvd & _) | (vd & myv & Hvd & _)]];
      [|congruence|congruence].
    exists KeyError. split; [apply Hrun|]. split; [apply Hrun|].
    split; [discriminate|]. reflexivity.
Qed.

Lemma unknown_vehicle_raises_witness :
  exists e : exn,
    get_action (default "Z") env_wrap (const_rng 0) = (Raise e, const_rng 0) /\
    closure_of (default "Z") env_wrap (const_rng 0) = (Raise e, const_rng 0) /\
    e <> IndexError /\
    (0 < 2 -> ~ (200 == 0)%Q -> e = KeyError).
Proof.
  apply (unknown_vehicle_raises (default "Z") env_wrap (const_rng 0)).
  reflexivity.
Defined.

Lemma mapM_result_raise_only {A B : Type} (f : A -> result B) (l : list A) (e : exn) :
  (forall a : A, a ∈ l -> f a = Raise e \/ exists y : B, f a = Ok y) ->
  (exists a : A, a ∈ l /\ f a = Raise e) ->
  mapM f l = Raise e.
Proof.
  induction l as [|a l IH]; intros Hall (b & Hb & Hfb).
  - inversion Hb.
  - simpl. destruct (f a) as [y|e'] eqn:Ea; simpl.
    + rewrite IH; [reflexivity | |].
      * intros c Hc. apply Hall, list_elem_of_further, Hc.
      * apply elem_of_cons in Hb as [-> | Hb]; [congruence|].
        exists b. split; assumption.
    + destruct (Hall a (list_elem_of_here _ _)) as [H | (y & H)]; congruence.
Qed.

Lemma mapM_result_all_ok {A B : Type} (f : A -> result B) (l : list A) :
  (forall a : A, a ∈ l -> exists y : B, f a = Ok y) ->
  exists ys : list B, mapM f l = Ok ys.
Proof.
  intros Hall. destruct (mapM f l) as [ys|e] eqn:E; [exists ys; reflexivity|].
  apply mapM_result_raise in E as (a & Ha & Hraise).
  destruct (Hall a Ha) as (y & Hy). congruence.
Qed.

(** On a track with lanes and a length, for a vehicle of the environment
    whose lane is a lane of the track and whose windows hold known cars only,
    [get_action] raises nothing: it returns a lane of the track, and so does
    the closure. *)
Theorem well_formed_returns (self : t) (env : Env) (g : rng) (vd : vehicle) :
  vehicles env !! veh_id self = Some vd ->
  0 <= lane vd < scenario_lanes (scenario env) ->
  ~ (scenario_length (scenario env) == 0)%Q ->
  known_window self env ->
  exists d : Z,
    fst (get_action self env g) = Ok d /\
    fst (closure_of self env g) = Ok d /\
    0 <= d < scenario_lanes (scenario env).
Proof.
  intros Hvd Hc HL Hknown.
  destruct (lane_scores self env) as [v|e] eqn:Hv.
  - destruct (get_action_returns self env g v vd Hv Hvd Hc) as (d & Hd & _ & Hrange).
    exists d. split; [exact Hd|]. split; [exact Hd | exact Hrange].
  - exfalso. apply lane_scores_raise in Hv as (l & Hl & Hraise).
    destruct (lane_score_raise self env l e Hraise)
      as [[_ HL'] | [_ [Hnone | (id & Hid & Hnone)]]].
    + contradiction.
    + congruence.
    + destruct (Hknown l id Hl Hid) as [vd' Hvd']. congruence.
Qed.

Lemma well_formed_returns_witness :
  exists d : Z,
    fst (get_action (default "A") env_wrap (const_rng 0)) = Ok d /\
    fst (closure_of (default "A") env_wrap (const_rng 0)) = Ok d /\
    0 <= d < 2.
Proof.
  apply (well_formed_returns (default "A") env_wrap (const_rng 0)
           {| lane := 0; max_speed := 30; speed := 10 |}).
  - reflexivity.
  - simpl. lia.
  - discriminate.
  - intros l id Hl Hid. unfold window in Hid. simpl in Hid.
    destruct (l =? 0); [|inversion Hid].
    apply list_elem_of_singleton in Hid as ->. eexists. reflexivity.
Defined.

(** On a track of length 0, for a vehicle of the environment, [get_action]
    raises [ZeroDivisionError] as soon as one lane of the track has a leader
    and a follower. *)
Theorem no_length_raises_ZeroDivisionError
    (self : t) (env : Env) (g : rng) (vd : vehicle) (l : Z) (leadID trailID : string) :
  vehicles env !! veh_id self = Some vd ->
  (scenario_length (scenario env) == 0)%Q ->
  0 <= l < scenario_lanes (scenario env) ->
  truthy (get_leading_car env (veh_id self) l) = Some leadID ->
  truthy (get_trailing_car env (veh_id self) l) = Some trailID ->
  get_action self env g = (Raise ZeroDivisionError, g) /\
  closure_of self env g = (Raise ZeroDivisionError, g).
Proof.
  intros Hvd HL Hl Hlead Htrail.
  change (closure_of self env g) with (get_action self env g).
  assert (Hzero : forall a : Q, py_mod a (scenario_length (scenario env))
                                = Raise ZeroDivisionError).
  { intros a. unfold py_mod.
    apply Qeq_bool_iff in HL. rewrite HL. reflexivity. }
  assert (Hv : lane_scores self env = Raise ZeroDivisionError).
  { rewrite lane_scores_mapM. apply mapM_result_raise_only.
    - intros k _. unfold lane_score, py_dict_get. rewrite Hvd.
      destruct (truthy (get_leading_car env (veh_id self) k)) as [lead|];
        [destruct (truthy (get_trailing_car env (veh_id self) k)) as [trail|]|].
      + left. unfold headway. rewrite Hzero. reflexivity.
      + right. eexists. reflexivity.
      + right. eexists. reflexivity.
    - exists l. split; [apply py_range_elem, Hl|].
      unfold lane_score. rewrite Hlead, Htrail. unfold headway.
      rewrite Hzero. reflexivity. }
  assert (Hrun : get_action self env g = (Raise ZeroDivisionError, g))
    by (unfold get_action; rewrite Hv; reflexivity).
  split; exact Hrun.
Qed.

Lemma no_length_raises_ZeroDivisionError_witness :
  get_action (default "A") env_no_length (const_rng 0)
    = (Raise ZeroDivisionError, const_rng 0) /\
  closure_of (default "A") env_no_length (const_rng 0)
    = (Raise ZeroDivisionError, const_rng 0).
Proof.
  apply (no_length_raises_ZeroDivisionError (default "A") env_no_length (const_rng 0)
           {| lane := 0; max_speed := 30; speed := 10 |} 0 "B" "C").
  - reflexivity.
  - reflexivity.
  - simpl. lia.
  - reflexivity.
  - reflexivity.
Defined.

(** ** The random generator *)

(** An invocation draws no number or one, and which of the two depends on
    the parameters and the environment only, not on the generator.  When
    none is drawn the result (a lane or an exception) is the same from every
    generator; the one number is drawn only on the way to returning a
    lane. *)
Theorem draws_at_most_once (self : t) (env : Env) :
  (draws_nothing (get_action self env) /\ draws_nothing (closure_of self env)) \/
  (draws_once (get_action self env) /\ draws_once (closure_of self env)).
Proof.
  assert (H : draws_nothing (get_action self env) \/ draws_once (get_action self env)).
  { destruct (get_action_cases self env)
      as [(e0 & _ & Hrun) | [[_ Hrun] | (v & maxv & maxl & _ & _ & _ & _ & Hrest)]].
    - left. intros g g'. rewrite !Hrun. split; reflexivity.
    - left. intros g g'. rewrite !Hrun. split; reflexivity.
    - destruct Hrest as [[_ Hrun] | [(vd & _ & _ & Hrun) | (vd & myv & _ & _ & Hrun)]].
      + left. intros g g'. rewrite !Hrun. split; reflexivity.
      + left. intros g g'. rewrite !Hrun. split; reflexivity.
      + destruct (negb (maxl =? lane vd)
                  && py_gt (py_sub maxv myv) (Num (speedThreshold self))).
        * right. intros g. rewrite Hrun. split; [reflexivity|].
          eexists. reflexivity.
        * left. intros g g'. rewrite !Hrun. split; reflexivity. }
  destruct H as [H | H]; [left | right]; split; exact H.
Qed.

(** ** The best lane, with [nan] among the scores *)

(** [max] from a number on: the [nan] items are passed over. *)
Lemma max_from_number (v : list pynum) :
  forall m : Q,
  exists m' : Q,
    max_from (Num m) v = Num m' /\
    (m <= m')%Q /\
    (forall q : Q, Num q ∈ v -> (q <= m')%Q) /\
    (m' = m \/ Num m' ∈ v).
Proof.
  induction v as [|x v IH]; intros m.
  - exists m. split; [reflexivity|]. split; [apply Qle_refl|].
    split; [|left; reflexivity]. intros q Hq. inversion Hq.
  - cbn [max_from]. destruct x as [q|a]; cbn [py_gt].
    + destruct (Qlt_bool m q) eqn:E.
      * apply Qlt_bool_true in E.
        destruct (IH q) as (m' & Hmax & Hle & Hall & Hin).
        exists m'. split; [exact Hmax|].
        split; [apply Qlt_le_weak, (Qlt_le_trans _ _ _ E Hle)|].
        split.
        -- intros q' Hq'. apply elem_of_cons in Hq' as [Heq | Hq'];
             [injection Heq as ->; exact Hle | apply Hall, Hq'].
        -- right. destruct Hin as [-> | Hin];
             [apply list_elem_of_here | apply list_elem_of_further, Hin].
      * apply Qlt_bool_false in E.
        destruct (IH m) as (m' & Hmax & Hle & Hall & Hin).
        exists m'. split; [exact Hmax|]. split; [exact Hle|].
        split.
        -- intros q' Hq'. apply elem_of_cons in Hq' as [Heq | Hq'];
             [injection Heq as ->; exact (Qle_trans _ _ _ E Hle) | apply Hall, Hq'].
        -- destruct Hin as [-> | Hin];
             [left; reflexivity | right; apply list_elem_of_further, Hin].
    + destruct (IH m) as (m' & Hmax & Hle & Hall & Hin).
      exists m'. split; [exact Hmax|]. split; [exact Hle|].
      split.
      * intros q' Hq'. apply elem_of_cons in Hq' as [Heq | Hq'];
          [discriminate | apply Hall, Hq'].
      * destruct Hin as [-> | Hin];
          [left; reflexivity | right; apply list_elem_of_further, Hin].
Qed.

(** [max] and [index] on a list whose first item is a number. *)
Lemma best_lane_number_head (v : list pynum) (q0 : Q) :
  v !! 0%nat = Some (Num q0) ->
  exists (j : nat) (m qj : Q),
    py_max v = Ok (Num m) /\
    best_lane v = Ok (Z.of_nat j) /\
    v !! j = Some (Num qj) /\ (qj == m)%Q /\
    (forall (i : nat) (q : Q), v !! i = Some (Num q) -> (q <= m)%Q) /\
    (forall (i : nat) (q : Q), (i < j)%nat -> v !! i = Some (Num q) -> (q < m)%Q).
Proof.
  destruct v as [|x v']; [discriminate|]. simpl. intros H. injection H as ->.
  destruct (max_from_number v' q0) as (m & Hmax & Hle & Hall & Hin).
  assert (Hall' : forall (i : nat) (q : Q),
             (Num q0 :: v') !! i = Some (Num q) -> (q <= m)%Q).
  { intros [|i] q Hq; simpl in Hq.
    - injection Hq as <-. exact Hle.
    - apply Hall. apply list_elem_of_lookup. exists i. exact Hq. }
  assert (Hm : Num m ∈ Num q0 :: v').
  { destruct Hin as [-> | Hin];
      [apply list_elem_of_here | apply list_elem_of_further, Hin]. }
  destruct (index_from_first (Num m) (Num q0 :: v') 0)
    as (j & Hidx & (y & Hy & Hyeq) & Hfirst).
  { exists (Num m). split; [exact Hm | apply py_is_or_eq_refl]. }
  destruct y as [qj|a]; [|discriminate].
  exists j, m, qj.
  split; [rewrite Hmax; reflexivity|].
  split; [unfold best_lane; cbn [py_max mbind result_bind]; rewrite Hmax; exact Hidx|].
  split; [exact Hy|].
  split; [apply Qeq_bool_iff; exact Hyeq|].
  split; [exact Hall'|].
  intros i q Hlt Hq.
  assert (Hne : py_is_or_eq (Num q) (Num m) = false) by exact (Hfirst i _ Hlt Hq).
  apply Qeq_bool_neq in Hne.
  pose proof (Hall' i q Hq) as Hle'.
  apply Qle_lteq in Hle' as [Hlt' | Heq]; [exact Hlt' | contradiction].
Qed.

(** When the score of lane 0 is a number, [max] is the greatest of the
    number scores and the best lane is the first lane that scores it: a
    lesser score, or a [nan], in a later lane is passed over, and of the lanes
    that tie the lowest is taken. *)
Theorem best_lane_argmax_past_nan (v : list pynum) (q0 : Q) :
  v !! 0%nat = Some (Num q0) ->
  exists (j : nat) (m qj : Q),
    py_max v = Ok (Num m) /\
    best_lane v = Ok (Z.of_nat j) /\
    v !! j = Some (Num qj) /\ (qj == m)%Q /\
    (forall (i : nat) (q : Q), v !! i = Some (Num q) -> (q <= m)%Q) /\
    (forall (i : nat) (q : Q), (i < j)%nat -> v !! i = Some (Num q) -> (q < m)%Q).
Proof. exact (best_lane_number_head v q0). Qed.

Lemma best_lane_argmax_past_nan_witness :
  exists (j : nat) (m qj : Q),
    py_max [Num 12; NaN (mean_site 1); Num 30; Num 30] = Ok (Num m) /\
    best_lane [Num 12; NaN (mean_site 1); Num 30; Num 30] = Ok (Z.of_nat j) /\
    [Num 12; NaN (mean_site 1); Num 30; Num 30] !! j = Some (Num qj) /\ (qj == m)%Q /\
    (forall (i : nat) (q : Q),
        [Num 12; NaN (mean_site 1); Num 30; Num 30] !! i = Some (Num q) -> (q <= m)%Q) /\
    (forall (i : nat) (q : Q), (i < j)%nat ->
        [Num 12; NaN (mean_site 1); Num 30; Num 30] !! i = Some (Num q) -> (q < m)%Q).
Proof.
  apply (best_lane_argmax_past_nan [Num 12; NaN (mean_site 1); Num 30; Num 30] 12).
  reflexivity.
Defined.

(** ** The scores in the finished list *)

Lemma lane_scores_lookup (self : t) (env : Env) (v : list pynum) (k : nat) (y : pynum) :
  lane_scores self env = Ok v ->
  v !! k = Some y ->
  (k < Z.to_nat (scenario_lanes (scenario env)))%nat /\
  lane_score self env (Z.of_nat k) = Ok y.
Proof.
  intros Hv Hk. pose proof (lane_scores_length self env v Hv) as Hlen.
  pose proof (lookup_lt_Some _ _ _ Hk) as Hlt.
  split; [lia|].
  rewrite lane_scores_mapM in Hv. apply mapM_result_lookup in Hv as [_ Hlook].
  destruct (Hlook k (Z.of_nat k)) as (y' & Hy' & Hvy').
  - rewrite <- (Nat2Z.id k) at 1. apply py_range_lookup. lia.
  - congruence.
Qed.

Lemma py_getitem_lookup {A : Type} (v : list A) (i : Z) (x : A) :
  py_getitem v i = Ok x -> exists k : nat, norm_index v i = Some k /\ v !! k = Some x.
Proof.
  unfold py_getitem. destruct (norm_index v i) as [k|]; simpl; [|discriminate].
  destruct (v !! k) as [y|] eqn:Ek; [|discriminate].
  intros H. injection H as <-. exists k. split; [reflexivity | exact Ek].
Qed.

Lemma lane_score_unsafe (self : t) (env : Env) (l : Z) :
  unsafe_lane self env l -> lane_score self env l = Ok (Num 0).
Proof.
  intros (hw & fw & (leadID & trailID & Hlead & Htrail & Hhw & Hfw) & Hgap).
  unfold lane_score. rewrite Hlead, Htrail, Hhw, Hfw. simpl.
  replace (Qlt_bool hw (gapForward self) || Qlt_bool fw (gapBack self)) with true;
    [reflexivity|].
  symmetry. apply orb_true_iff.
  destruct Hgap as [H|H]; [left|right]; apply Qlt_bool_true; exact H.
Qed.

Lemma lane_score_empty (self : t) (env : Env) (l : Z) (vd : vehicle) :
  vehicles env !! veh_id self = Some vd ->
  empty_lane self env l -> lane_score self env l = Ok (Num (max_speed vd)).
Proof.
  intros Hvd Hnone. unfold lane_score, py_dict_get. rewrite Hvd.
  destruct Hnone as [-> | ->]; [reflexivity|].
  destruct (truthy (get_leading_car env (veh_id self) l)); reflexivity.
Qed.

(** The mean of the speeds of the known cars of the window, in a lane with
    safe gaps. *)
Lemma lane_score_safe (self : t) (env : Env) (l : Z) :
  safe_lane self env l ->
  lane_score self env l
  = (speeds ← mapM (fun other_id => vd ← py_dict_get (vehicles env) other_id;
                                    mret (speed vd)) (window self env l);
     Ok (np_mean (mean_site l) speeds)).
Proof.
  intros (hw & fw & (leadID & trailID & Hlead & Htrail & Hhw & Hfw) & Hgf & Hgb).
  unfold lane_score. rewrite Hlead, Htrail, Hhw, Hfw. simpl.
  apply Qlt_bool_false in Hgf, Hgb. rewrite Hgf, Hgb. reflexivity.
Qed.

Lemma lane_score_empty_window (self : t) (env : Env) (l : Z) :
  empty_window self env l -> lane_score self env l = Ok (NaN (mean_site l)).
Proof.
  intros [Hsafe Hwin]. rewrite (lane_score_safe self env l Hsafe), Hwin. reflexivity.
Qed.

(** The speeds that the list comprehension collects are the speeds of the
    cars of the window. *)
Lemma window_speeds (env : Env) (ids : list string) (speeds : list Q) :
  mapM (fun other_id => vd ← py_dict_get (vehicles env) other_id; mret (speed vd)) ids
    = Ok speeds ->
  length speeds = length ids /\
  forall s : Q, s ∈ speeds ->
    exists (id : string) (vd : vehicle),
      id ∈ ids /\ vehicles env !! id = Some vd /\ speed vd = s.
Proof.
  intros H. apply mapM_result_lookup in H as [Hlen Hlook].
  split; [exact Hlen|]. intros s Hs.
  apply list_elem_of_lookup in Hs as (i & Hi).
  pose proof (lookup_lt_Some _ _ _ Hi) as Hlt.
  destruct (ids !! i) as [id|] eqn:Hid.
  2:{ apply lookup_ge_None in Hid. lia. }
  destruct (Hlook i id Hid) as (y & Hy & Hsy).
  unfold py_dict_get in Hy.
  destruct (vehicles env !! id) as [vd|] eqn:Hvd; simpl in Hy; [|discriminate].
  injection Hy as <-. exists id, vd.
  split; [apply list_elem_of_lookup; exists i; exact Hid|].
  split; [exact Hvd | congruence].
Qed.

Lemma sum_lower (xs : list Q) (lo : Q) :
  (forall s : Q, s ∈ xs -> (lo <= s)%Q) ->
  (inject_Z (Z.of_nat (length xs)) * lo <= foldr Qplus 0%Q xs)%Q.
Proof.
  induction xs as [|x xs IH]; intros H.
  - cbn [length foldr]. change (inject_Z (Z.of_nat 0)) with 0%Q. lra.
  - assert (IH' : (inject_Z (Z.of_nat (length xs)) * lo <= foldr Qplus 0%Q xs)%Q).
    { apply IH. intros s Hs. apply H, list_elem_of_further, Hs. }
    pose proof (H x (list_elem_of_here _ _)) as Hlo.
    cbn [length foldr]. rewrite Nat2Z.inj_succ. unfold Z.succ.
    rewrite inject_Z_plus. change (inject_Z 1) with 1%Q. lra.
Qed.

Lemma sum_upper (xs : list Q) (hi : Q) :
  (forall s : Q, s ∈ xs -> (s <= hi)%Q) ->
  (foldr Qplus 0%Q xs <= inject_Z (Z.of_nat (length xs)) * hi)%Q.
Proof.
  induction xs as [|x xs IH]; intros H.
  - cbn [length foldr]. change (inject_Z (Z.of_nat 0)) with 0%Q. lra.
  - assert (IH' : (foldr Qplus 0%Q xs <= inject_Z (Z.of_nat (length xs)) * hi)%Q).
    { apply IH. intros s Hs. apply H, list_elem_of_further, Hs. }
    pose proof (H x (list_elem_of_here _ _)) as Hhi.
    cbn [length foldr]. rewrite Nat2Z.inj_succ. unfold Z.succ.
    rewrite inject_Z_plus. change (inject_Z 1) with 1%Q. lra.
Qed.

(** The mean of a list that is not empty is a number, above every lower
    bound of the list and below every upper bound. *)
Lemma np_mean_number (site : alloc) (xs : list Q) :
  xs <> [] ->
  exists m : Q,
    np_mean site xs = Num m /\
    (forall lo : Q, (forall s : Q, s ∈ xs -> (lo <= s)%Q) -> (lo <= m)%Q) /\
    (forall hi : Q, (forall s : Q, s ∈ xs -> (s <= hi)%Q) -> (m <= hi)%Q).
Proof.
  intros Hne. destruct xs as [|x xs]; [congruence|].
  eexists. split; [reflexivity|].
  assert (Hpos : (0 < inject_Z (Z.of_nat (length (x :: xs))))%Q).
  { change 0%Q with (inject_Z 0). rewrite <- Zlt_Qlt. simpl. lia. }
  split.
  - intros lo Hlo. apply Qle_shift_div_l; [exact Hpos|].
    rewrite Qmult_comm. apply sum_lower, Hlo.
  - intros hi Hhi. apply Qle_shift_div_r; [exact Hpos|].
    rewrite Qmult_comm. apply sum_upper, Hhi.
Qed.

(** Without negative speeds in the environment, no score is negative. *)
Lemma lane_score_nonneg (self : t) (env : Env) (l : Z) (q : Q) :
  nonneg_speeds env -> lane_score self env l = Ok (Num q) -> (0 <= q)%Q.
Proof.
  intros Hnn. unfold lane_score.
  destruct (truthy (get_leading_car env (veh_id self) l)) as [leadID|];
    [destruct (truthy (get_trailing_car env (veh_id self) l)) as [trailID|]|].
  - destruct (headway env (veh_id self) leadID) as [hw|e1]; simpl; [|discriminate].
    destruct (footway env (veh_id self) trailID) as [fw|e1]; simpl; [|discriminate].
    destruct (Qlt_bool hw (gapForward self) || Qlt_bool fw (gapBack self)).
    { intros H. injection H as <-. apply Qle_refl. }
    destruct (mapM _ _) as [speeds|e1] eqn:Es; simpl; [|discriminate].
    intros H. injection H as H.
    apply window_speeds in Es as [_ Hspeeds].
    destruct speeds as [|s speeds]; [discriminate|].
    destruct (np_mean_number (mean_site l) (s :: speeds)) as (m & Hm & Hlo & _);
      [discriminate|].
    rewrite Hm in H. injection H as <-.
    apply Hlo. intros s' Hs'.
    destruct (Hspeeds s' Hs') as (id & vd & _ & Hvd & <-).
    apply (Hnn id vd Hvd).
  - unfold py_dict_get.
    destruct (vehicles env !! veh_id self) as [vd|] eqn:Hvd; simpl; [|discriminate].
    intros H. injection H as <-. apply (Hnn _ vd Hvd).
  - unfold py_dict_get.
    destruct (vehicles env !! veh_id self) as [vd|] eqn:Hvd; simpl; [|discriminate].
    intros H. injection H as <-. apply (Hnn _ vd Hvd).
Qed.

(** ** What a change of lane needs *)

Lemma py_max_number_head (v : list pynum) (m : Q) :
  py_max v = Ok (Num m) -> exists q0 : Q, v !! 0%nat = Some (Num q0).
Proof.
  destruct v as [|[q0|a] v']; simpl.
  - discriminate.
  - intros _. exists q0. reflexivity.
  - rewrite max_from_nan. discriminate.
Qed.

(** What holds when [get_action] returns a lane that is not the lane of the
    vehicle. *)
Lemma change_facts (self : t) (env : Env) (g : rng)
    (v : list pynum) (vd : vehicle) (d : Z) :
  lane_scores self env = Ok v ->
  vehicles env !! veh_id self = Some vd ->
  fst (get_action self env g) = Ok d ->
  d <> lane vd ->
  exists qd qc : Q,
    py_getitem v d = Ok (Num qd) /\
    py_getitem v (lane vd) = Ok (Num qc) /\
    (speedThreshold self < qd - qc)%Q /\
    (fst (random g) < prob self)%Q /\
    best_lane v = Ok d /\
    0 <= d < scenario_lanes (scenario env) /\
    (forall (l : Z) (q : Q), py_getitem v l = Ok (Num q) -> (q <= qd)%Q).
Proof.
  intros Hv Hvd Hd Hne.
  destruct (get_action_cases self env)
    as [(e0 & Hv' & _) | [[Hv' Hrun] | (v0 & maxv & maxl & Hv' & _ & Hmax & Hidx & Hrest)]].
  { congruence. }
  { rewrite Hrun in Hd. discriminate. }
  assert (v0 = v) as -> by congruence.
  destruct Hrest as [[Hnone _] | [(vd0 & _ & _ & Hrun) | (vd0 & myv & Hvd0 & Hmy & Hrun)]].
  { congruence. }
  { rewrite Hrun in Hd. discriminate. }
  assert (vd0 = vd) as -> by congruence.
  rewrite Hrun in Hd.
  destruct (negb (maxl =? lane vd)) eqn:Hneq; simpl in Hd;
    [|injection Hd as <-; contradiction].
  destruct (py_gt (py_sub maxv myv) (Num (speedThreshold self))) eqn:Hgt; simpl in Hd;
    [|injection Hd as <-; contradiction].
  destruct (Qlt_bool (g 0%nat) (prob self)) eqn:Hr;
    [|injection Hd as <-; contradiction].
  injection Hd as <-.
  destruct maxv as [m|a]; [|discriminate]. destruct myv as [qc|a]; [|discriminate].
  simpl in Hgt. apply Qlt_bool_true in Hgt. apply Qlt_bool_true in Hr.
  destruct (py_max_number_head v m Hmax) as (q0 & Hq0).
  destruct (best_lane_number_head v q0 Hq0) as (j & m' & qj & Hmax' & Hbest & Hj & Heq & Hall & _).
  assert (m' = m) as -> by congruence.
  assert (maxl = Z.of_nat j) as ->.
  { unfold best_lane in Hbest. rewrite Hmax in Hbest. simpl in Hbest. congruence. }
  pose proof (lookup_lt_Some _ _ _ Hj) as Hlt.
  pose proof (lane_scores_length self env v Hv) as Hlen.
  exists qj, qc.
  split; [apply py_getitem_range; [lia | rewrite Nat2Z.id; exact Hj]|].
  split; [exact Hmy|].
  split; [rewrite Heq; exact Hgt|].
  split; [exact Hr|].
  split; [exact Hbest|].
  split; [lia|].
  intros l q Hl. apply py_getitem_lookup in Hl as (k & _ & Hk).
  rewrite Heq. exact (Hall k q Hk).
Qed.

(** A lane other than the lane of the vehicle is returned only when it is
    the best lane, its score and the score of the lane of the vehicle are
    numbers that differ by more than the threshold, and the draw is below the
    probability; no lane then has a number score above the score of the lane
    returned. *)
Theorem change_needs_gain (self : t) (env : Env) (g : rng)
    (v : list pynum) (vd : vehicle) (d : Z) :
  lane_scores self env = Ok v ->
  vehicles env !! veh_id self = Some vd ->
  fst (get_action self env g) = Ok d ->
  d <> lane vd ->
  exists qd qc : Q,
    py_getitem v d = Ok (Num qd) /\
    py_getitem v (lane vd) = Ok (Num qc) /\
    (speedThreshold self < qd - qc)%Q /\
    (fst (random g) < prob self)%Q /\
    best_lane v = Ok d /\
    0 <= d < scenario_lanes (scenario env) /\
    (forall (l : Z) (q : Q), py_getitem v l = Ok (Num q) -> (q <= qd)%Q).
Proof. exact (change_facts self env g v vd d). Qed.

Lemma change_needs_gain_witness :
  exists qd qc : Q,
    py_getitem [Num 0; Num 30] 1 = Ok (Num qd) /\
    py_getitem [Num 0; Num 30] 0 = Ok (Num qc) /\
    (5 < qd - qc)%Q /\
    (0 < 1 # 2)%Q /\
    best_lane [Num 0; Num 30] = Ok 1 /\
    0 <= 1 < 2 /\
    (forall (l : Z) (q : Q), py_getitem [Num 0; Num 30] l = Ok (Num q) -> (q <= qd)%Q).
Proof.
  apply (change_needs_gain (default "A") env_close (const_rng 0) [Num 0; Num 30]
           {| lane := 0; max_speed := 30; speed := 10 |} 1).
  - reflexivity.
  - reflexivity.
  - reflexivity.
  - simpl. lia.
Defined.

(** With a threshold that is not negative, in an environment without
    negative speeds, the lane of a change has a positive score: it is never a
    lane that the gaps make unsafe, and never one whose window is empty. *)
Theorem never_changes_into_unsafe_lane (self : t) (env : Env) (g : rng)
    (v : list pynum) (vd : vehicle) (d : Z) :
  lane_scores self env = Ok v ->
  vehicles env !! veh_id self = Some vd ->
  nonneg_speeds env ->
  (0 <= speedThreshold self)%Q ->
  fst (get_action self env g) = Ok d ->
  d <> lane vd ->
  (exists qd : Q, py_getitem v d = Ok (Num qd) /\ (0 < qd)%Q) /\
  ~ unsafe_lane self env d /\
  ~ empty_window self env d.
Proof.
  intros Hv Hvd Hnn Hthr Hd Hne.
  destruct (change_facts self env g v vd d Hv Hvd Hd Hne)
    as (qd & qc & Hqd & Hqc & Hgain & _ & _ & Hrange & _).
  assert (Hc : (0 <= qc)%Q).
  { apply py_getitem_lookup in Hqc as (k & _ & Hk).
    destruct (lane_scores_lookup self env v k _ Hv Hk) as [_ Hscore].
    exact (lane_score_nonneg self env _ qc Hnn Hscore). }
  assert (Hpos : (0 < qd)%Q) by lra.
  assert (Hscore : lane_score self env d = Ok (Num qd)).
  { apply py_getitem_lookup in Hqd as (k & Hnorm & Hk).
    pose proof (lane_scores_length self env v Hv) as Hlen.
    rewrite norm_index_range in Hnorm by lia. injection Hnorm as <-.
    destruct (lane_scores_lookup self env v _ _ Hv Hk) as [_ Hscore].
    rewrite Z2Nat.id in Hscore by lia. exact Hscore. }
  split; [exists qd; split; assumption|]. split.
  - intros Hunsafe. rewrite (lane_score_unsafe self env d Hunsafe) in Hscore.
    injection Hscore as <-. exact (Qlt_irrefl 0 Hpos).
  - intros Hempty. rewrite (lane_score_empty_window self env d Hempty) in Hscore.
    discriminate.
Qed.

Lemma never_changes_into_unsafe_lane_witness :
  (exists qd : Q, py_getitem [Num 0; Num 30] 1 = Ok (Num qd) /\ (0 < qd)%Q) /\
  ~ unsafe_lane (default "A") env_close 1 /\
  ~ empty_window (default "A") env_close 1.
Proof.
  apply (never_changes_into_unsafe_lane (default "A") env_close (const_rng 0)
           [Num 0; Num 30] {| lane := 0; max_speed := 30; speed := 10 |} 1).
  - reflexivity.
  - reflexivity.
  - intros id vd Hvd. simpl in Hvd.
    repeat (apply lookup_insert_Some in Hvd as [[_ <-] | [_ Hvd]];
            [split; unfold Qle; simpl; lia|]).
    apply lookup_singleton_Some in Hvd as [_ <-].
    split; unfold Qle; simpl; lia.
  - unfold Qle. simpl. lia.
  - reflexivity.
  - simpl. lia.
Defined.

(** ** Lanes that score [nan], lanes that are unsafe *)

Lemma lane_scores_at (self : t) (env : Env) (v : list pynum) (l : Z) (x : pynum) :
  lane_scores self env = Ok v ->
  0 <= l < scenario_lanes (scenario env) ->
  lane_score self env l = Ok x ->
  v !! Z.to_nat l = Some x.
Proof.
  intros Hv Hl Hx.
  destruct (lane_score_scores_lane self env l x Hx) as [_ Hget].
  pose proof (lane_scores_length self env v Hv) as Hlen.
  destruct (py_getitem_lookup v l x (Hget v Hl Hv)) as (k & Hnorm & Hk).
  rewrite norm_index_range in Hnorm by lia. congruence.
Qed.

(** A score is [nan] only in a lane with safe gaps and an empty window. *)
Lemma lane_score_nan (self : t) (env : Env) (l : Z) (a : alloc) :
  lane_score self env l = Ok (NaN a) -> empty_window self env l.
Proof.
  unfold lane_score, empty_window, safe_lane, lane_gaps.
  destruct (truthy (get_leading_car env (veh_id self) l)) as [leadID|];
    [destruct (truthy (get_trailing_car env (veh_id self) l)) as [trailID|]|].
  - destruct (headway env (veh_id self) leadID) as [hw|e1] eqn:Ehw; simpl; [|discriminate].
    destruct (footway env (veh_id self) trailID) as [fw|e1] eqn:Efw; simpl; [|discriminate].
    destruct (Qlt_bool hw (gapForward self)) eqn:E1; [discriminate|].
    destruct (Qlt_bool fw (gapBack self)) eqn:E2; [discriminate|]. simpl.
    fold (window self env l).
    destruct (mapM _ _) as [speeds|e1] eqn:Es; simpl; [|discriminate].
    intros H. apply window_speeds in Es as [Hlen _].
    destruct speeds as [|s speeds]; [|discriminate].
    split.
    + exists hw, fw. split; [exists leadID, trailID; auto|].
      split; apply Qlt_bool_false; assumption.
    + destruct (window self env l); [reflexivity | discriminate].
  - destruct (py_dict_get _ _); discriminate.
  - destruct (py_dict_get _ _); discriminate.
Qed.

(** When the loop is over without an exception and lane 0, or the lane of the
    vehicle, has safe gaps and an empty window, [get_action] returns the lane
    of the vehicle, whatever the other lanes score, and draws no number. *)
Theorem empty_window_blocks_changes (self : t) (env : Env)
    (v : list pynum) (vd : vehicle) :
  lane_scores self env = Ok v ->
  vehicles env !! veh_id self = Some vd ->
  0 <= lane vd < scenario_lanes (scenario env) ->
  empty_window self env 0 \/ empty_window self env (lane vd) ->
  forall g : rng,
    get_action self env g = (Ok (lane vd), g) /\
    closure_of self env g = (Ok (lane vd), g).
Proof.
  intros Hv Hvd Hc Hnan g.
  change (closure_of self env g) with (get_action self env g).
  pose proof (lane_scores_length self env v Hv) as Hlen.
  assert (Hne : v <> []) by (intros ->; simpl in Hlen; lia).
  destruct (best_lane_total v Hne) as (maxv & maxl & Hmax & Hidx & _).
  destruct (v !! Z.to_nat (lane vd)) as [myv|] eqn:Hmy.
  2:{ apply lookup_ge_None in Hmy. lia. }
  assert (Hget : py_getitem v (lane vd) = Ok myv)
    by (apply py_getitem_range; [lia | exact Hmy]).
  assert (Hgt : py_gt (py_sub maxv myv) (Num (speedThreshold self)) = false).
  { destruct Hnan as [H0 | Hown].
    - pose proof (lane_scores_at self env v 0 _ Hv ltac:(lia)
                    (lane_score_empty_window self env 0 H0)) as Hv0.
      destruct v as [|x v']; [discriminate|]. simpl in Hv0. injection Hv0 as ->.
      simpl in Hmax. rewrite max_from_nan in Hmax. injection Hmax as <-. reflexivity.
    - pose proof (lane_scores_at self env v (lane vd) _ Hv Hc
                    (lane_score_empty_window self env _ Hown)) as Hvc.
      assert (myv = NaN (mean_site (lane vd))) as -> by congruence.
      destruct maxv; reflexivity. }
  rewrite (get_action_run self env g v maxv myv maxl vd Hv Hmax Hidx Hvd Hget).
  rewrite Hgt, andb_false_r. split; reflexivity.
Qed.

(** A vehicle whose lane is unsafe, when another lane is empty, its maximal
    speed exceeds a threshold that is not negative, and lane 0 has no empty
    window: the best lane is another lane, of score at least the maximal
    speed, and [get_action] draws one number and returns the best lane when
    the draw is below the probability, the lane of the vehicle otherwise. *)
Theorem leaves_unsafe_lane (self : t) (env : Env)
    (v : list pynum) (vd : vehicle) (e : Z) :
  lane_scores self env = Ok v ->
  vehicles env !! veh_id self = Some vd ->
  0 <= lane vd < scenario_lanes (scenario env) ->
  unsafe_lane self env (lane vd) ->
  0 <= e < scenario_lanes (scenario env) ->
  empty_lane self env e ->
  (0 <= speedThreshold self)%Q ->
  (speedThreshold self < max_speed vd)%Q ->
  ~ empty_window self env 0 ->
  exists (maxl : Z) (qd : Q),
    best_lane v = Ok maxl /\
    maxl <> lane vd /\
    py_getitem v maxl = Ok (Num qd) /\
    (max_speed vd <= qd)%Q /\
    forall g : rng,
      get_action self env g
        = (Ok (if Qlt_bool (fst (random g)) (prob self) then maxl else lane vd),
           snd (random g)) /\
      closure_of self env g
        = (Ok (if Qlt_bool (fst (random g)) (prob self) then maxl else lane vd),
           snd (random g)).
Proof.
  intros Hv Hvd Hc Hunsafe He Hempty Hthr Hms Hwin.
  pose proof (lane_scores_length self env v Hv) as Hlen.
  destruct (v !! 0%nat) as [x0|] eqn:Hx0.
  2:{ apply lookup_ge_None in Hx0. lia. }
  destruct x0 as [q0|a].
  2:{ exfalso. apply Hwin.
      destruct (lane_scores_lookup self env v 0 _ Hv Hx0) as [_ Hs].
      exact (lane_score_nan self env 0 a Hs). }
  destruct (best_lane_number_head v q0 Hx0)
    as (j & m & qj & Hmax & Hbest & Hj & Heq & Hall & _).
  pose proof (lane_scores_at self env v e _ Hv He (lane_score_empty self env e vd Hvd Hempty))
    as Hve.
  pose proof (lane_scores_at self env v (lane vd) _ Hv Hc
                (lane_score_unsafe self env _ Hunsafe)) as Hvc.
  pose proof (Hall _ _ Hve) as Hm.
  assert (Hjc : Z.of_nat j <> lane vd).
  { intros Hjc. rewrite <- Hjc, Nat2Z.id in Hvc.
    assert (qj = 0%Q) as -> by congruence. lra. }
  pose proof (lookup_lt_Some _ _ _ Hj) as Hlt.
  assert (Hidx : py_index v (Num m) = Ok (Z.of_nat j)).
  { unfold best_lane in Hbest. rewrite Hmax in Hbest. exact Hbest. }
  assert (Hget : py_getitem v (lane vd) = Ok (Num 0))
    by (apply py_getitem_range; [lia | exact Hvc]).
  exists (Z.of_nat j), qj.
  split; [exact Hbest|]. split; [exact Hjc|].
  split; [apply py_getitem_range; [lia | rewrite Nat2Z.id; exact Hj]|].
  split; [rewrite Heq; exact Hm|].
  intros g. change (closure_of self env g) with (get_action self env g).
  rewrite (get_action_run self env g v (Num m) (Num 0) (Z.of_nat j) vd
             Hv Hmax Hidx Hvd Hget).
  replace (negb (Z.of_nat j =? lane vd)) with true
    by (symmetry; apply negb_true_iff, Z.eqb_neq, Hjc).
  replace (py_gt (py_sub (Num m) (Num 0)) (Num (speedThreshold self))) with true.
  - split; reflexivity.
  - symmetry. simpl. apply Qlt_bool_true. lra.
Qed.

Lemma empty_window_blocks_changes_witness :
  get_action (default "A") env_three (const_rng 0) = (Ok 1, const_rng 0) /\
  closure_of (default "A") env_three (const_rng 0) = (Ok 1, const_rng 0).
Proof.
  refine (empty_window_blocks_changes (default "A") env_three
            [NaN (mean_site 0); Num 0; Num 30]
            {| lane := 1; max_speed := 30; speed := 10 |} _ _ _ _ (const_rng 0)).
  - reflexivity.
  - reflexivity.
  - simpl. lia.
  - left. split; [|reflexivity].
    exists 70%Q, 50%Q. split.
    + exists "B", "C". repeat split; reflexivity.
    + split; unfold Qle; simpl; lia.
Defined.

Lemma leaves_unsafe_lane_witness :
  exists (maxl : Z) (qd : Q),
    best_lane [Num 0; Num 30] = Ok maxl /\
    maxl <> 0 /\
    py_getitem [Num 0; Num 30] maxl = Ok (Num qd) /\
    (30 <= qd)%Q /\
    forall g : rng,
      get_action (default "A") env_close g
        = (Ok (if Qlt_bool (fst (random g)) (1 # 2) then maxl else 0), snd (random g)) /\
      closure_of (default "A") env_close g
        = (Ok (if Qlt_bool (fst (random g)) (1 # 2) then maxl else 0), snd (random g)).
Proof.
  apply (leaves_unsafe_lane (default "A") env_close [Num 0; Num 30]
           {| lane := 0; max_speed := 30; speed := 10 |} 1).
  - reflexivity.
  - reflexivity.
  - simpl. lia.
  - exists 3%Q, 50%Q. split.
    + exists "B", "C". repeat split; reflexivity.
    + left. reflexivity.
  - simpl. lia.
  - left. reflexivity.
  - unfold Qle. simpl. lia.
  - reflexivity.
  - intros [_ Hwin]. discriminate Hwin.
Defined.

(** ** The lane of the vehicle as an index *)

Lemma norm_index_Some_range {A : Type} (v : list A) (i : Z) (k : nat) :
  norm_index v i = Some k -> - Z.of_nat (length v) <= i < Z.of_nat (length v).
Proof.
  intros H. destruct (Z_lt_le_dec i (Z.of_nat (length v))) as [Hlt|Hge].
  - destruct (Z_le_gt_dec (- Z.of_nat (length v)) i) as [Hle|Hgt]; [lia|].
    exfalso. unfold norm_index in H.
    replace (0 <=? i) with false in H by (symmetry; apply Z.leb_gt; lia).
    replace (- Z.of_nat (length v) <=? i) with false in H
      by (symmetry; apply Z.leb_gt; lia).
    discriminate.
  - exfalso. unfold norm_index in H.
    replace (i <? Z.of_nat (length v)) with false in H
      by (symmetry; apply Z.ltb_ge; lia).
    replace (i <? 0) with false in H by (symmetry; apply Z.ltb_ge; lia).
    rewrite !andb_false_r in H. discriminate.
Qed.

(** When the loop is over without an exception, for a vehicle of the
    environment: [get_action] raises [IndexError] exactly when the lane [c]
    of the vehicle is no index of the list of scores, that is, when
    [-num_lanes <= c < num_lanes] fails.  A negative [c] within these bounds
    raises nothing. *)
Theorem IndexError_iff_lane_out_of_range (self : t) (env : Env) (g : rng)
    (v : list pynum) (vd : vehicle) :
  lane_scores self env = Ok v ->
  0 < scenario_lanes (scenario env) ->
  vehicles env !! veh_id self = Some vd ->
  (get_action self env g = (Raise IndexError, g) <->
   ~ (- scenario_lanes (scenario env) <= lane vd < scenario_lanes (scenario env))) /\
  (closure_of self env g = (Raise IndexError, g) <->
   ~ (- scenario_lanes (scenario env) <= lane vd < scenario_lanes (scenario env))).
Proof.
  intros Hv Hn Hvd.
  change (closure_of self env g) with (get_action self env g).
  pose proof (lane_scores_length self env v Hv) as Hlen.
  assert (H : get_action self env g = (Raise IndexError, g) <->
              ~ (- scenario_lanes (scenario env) <= lane vd
                 < scenario_lanes (scenario env))).
  { destruct (get_action_cases self env)
      as [(e0 & Hv' & _) | [[Hv' _] | (v0 & maxv & maxl & Hv' & _ & _ & _ & Hrest)]].
    { congruence. }
    { assert (v = []) as -> by congruence. simpl in Hlen. lia. }
    assert (v0 = v) as -> by congruence.
    destruct Hrest as [[Hnone _] | [(vd0 & Hvd0 & Hout & Hrun) | (vd0 & myv & Hvd0 & Hmy & Hrun)]].
    - congruence.
    - assert (vd0 = vd) as -> by congruence. rewrite Hrun. split.
      + intros _ Hin. apply Hout. lia.
      + reflexivity.
    - assert (vd0 = vd) as -> by congruence. rewrite Hrun.
      apply py_getitem_lookup in Hmy as (k & Hnorm & _).
      apply norm_index_Some_range in Hnorm. split.
      + intros Hraise. exfalso.
        destruct (negb (maxl =? lane vd)
                  && py_gt (py_sub maxv myv) (Num (speedThreshold self)));
          discriminate.
      + intros Hout. exfalso. apply Hout. lia. }
  split; exact H.
Qed.

Lemma IndexError_iff_lane_out_of_range_witness :
  (get_action (default "A") (env_alone 5) (const_rng 0) = (Raise IndexError, const_rng 0)
   <-> ~ (- 2 <= 5 < 2)) /\
  (closure_of (default "A") (env_alone 5) (const_rng 0) = (Raise IndexError, const_rng 0)
   <-> ~ (- 2 <= 5 < 2)).
Proof.
  apply (IndexError_iff_lane_out_of_range (default "A") (env_alone 5) (const_rng 0)
           [Num 30; Num 30] {| lane := 5; max_speed := 30; speed := 10 |}).
  - reflexivity.
  - simpl. lia.
  - reflexivity.
Defined.

(** ** The static lane changers and unknown vehicles *)

(** [StaticLaneChanger.get_action] and the controller of
    [never_change_lanes_controller] raise [KeyError] exactly when
    [env.vehicles] does not hold the vehicle, raise nothing else, and agree on
    every environment. *)
Theorem static_lane_changers_KeyError (carID : string) (env : Env) :
  let class := StaticLaneChanger.get_action {| StaticLaneChanger.veh_id := carID |} env in
  let closure := never_change_lanes_controller carID env in
  class = closure /\
  (class = Raise KeyError <-> vehicles env !! carID = None) /\
  (forall e : exn, class = Raise e -> e = KeyError) /\
  (forall d : Z, class = Ok d ->
     exists vd : vehicle, vehicles env !! carID = Some vd /\ lane vd = d).
Proof.
  unfold StaticLaneChanger.get_action, never_change_lanes_controller, py_dict_get.
  simpl. destruct (vehicles env !! carID) as [vd|]; simpl.
  - split; [reflexivity|]. split; [split; discriminate|].
    split; [discriminate|]. intros d H. injection H as <-. exists vd. auto.
  - split; [reflexivity|]. split; [split; reflexivity|].
    split; [intros e H; injection H as <-; reflexivity | discriminate].
Qed.

(** * The gaps on machine floats *)

(** ** Rounding *)

Lemma pow2_pos (e : Z) : (0 < pow2 e)%Q.
Proof. apply Qpower_0_lt. reflexivity. Qed.

Lemma pow2_add (a b : Z) : (pow2 (a + b) == pow2 a * pow2 b)%Q.
Proof. apply Qpower_plus. discriminate. Qed.

Lemma pow2_le (a b : Z) : a <= b -> (pow2 a <= pow2 b)%Q.
Proof. intros H. apply Qpower_le_compat_l; [exact H | discriminate]. Qed.

Lemma pow2_Z (k : Z) : 0 <= k -> (pow2 k == inject_Z (2 ^ k))%Q.
Proof. intros H. symmetry. apply (Zpower_Qpower 2 k H). Qed.

Lemma Qlog2_spec (x : Q) :
  (0 < x)%Q -> (pow2 (Qlog2 x) <= x)%Q /\ (x < pow2 (Qlog2 x + 1))%Q.
Proof.
  intros Hx. destruct x as [n d].
  assert (Hn : 0 < n) by (unfold Qlt in Hx; simpl in Hx; lia).
  unfold Qlog2. cbn [Qnum Qden].
  set (ln := Z.log2 n). set (ld := Z.log2 (Z.pos d)).
  destruct (Z.log2_spec n Hn) as [Hn1 Hn2]. fold ln in Hn1, Hn2.
  destruct (Z.log2_spec (Z.pos d) ltac:(lia)) as [Hd1 Hd2]. fold ld in Hd1, Hd2.
  assert (Hln : 0 <= ln) by apply Z.log2_nonneg.
  assert (Hld : 0 <= ld) by apply Z.log2_nonneg.
  assert (Hd : (0 < inject_Z (Z.pos d))%Q) by reflexivity.
  assert (Hxd : (n # d == inject_Z n / inject_Z (Z.pos d))%Q) by apply Qmake_Qdiv.
  assert (Hup : (n # d < pow2 (ln - ld + 1))%Q).
  { rewrite Hxd. apply Qlt_shift_div_r; [exact Hd|].
    apply Qlt_le_trans with (inject_Z (2 ^ (ln + 1))).
    - rewrite <- Zlt_Qlt. exact Hn2.
    - rewrite <- pow2_Z by lia.
      replace (ln + 1) with ((ln - ld + 1) + ld) by lia.
      rewrite pow2_add. apply Qmult_le_l; [apply pow2_pos|].
      rewrite pow2_Z by lia. rewrite <- Zle_Qle. exact Hd1. }
  assert (Hlo : (pow2 (ln - ld - 1) <= n # d)%Q).
  { rewrite Hxd. apply Qle_shift_div_l; [exact Hd|].
    apply Qle_trans with (inject_Z (2 ^ ln)).
    - rewrite <- pow2_Z by lia.
      replace ln with ((ln - ld - 1) + (ld + 1)) at 2 by lia.
      rewrite pow2_add. apply Qmult_le_l; [apply pow2_pos|].
      rewrite pow2_Z by lia. rewrite <- Zle_Qle. lia.
    - rewrite <- Zle_Qle. exact Hn1. }
  destruct (Qle_bool (pow2 (ln - ld)) (n # d)) eqn:E.
  - split; [apply Qle_bool_iff, E | exact Hup].
  - split; [exact Hlo|].
    replace (ln - ld - 1 + 1) with (ln - ld) by lia.
    apply Qnot_le_lt. intros H. apply Qle_bool_iff in H. congruence.
Qed.

Lemma Qlog2_mono (x y : Q) : (0 < x)%Q -> (x <= y)%Q -> Qlog2 x <= Qlog2 y.
Proof.
  intros Hx Hxy.
  destruct (Qlog2_spec x Hx) as [Hx1 _].
  destruct (Qlog2_spec y (Qlt_le_trans _ _ _ Hx Hxy)) as [_ Hy2].
  assert (H : (pow2 (Qlog2 x) < pow2 (Qlog2 y + 1))%Q) by lra.
  apply Qpower_lt_compat_l_inv in H; [lia | reflexivity].
Qed.

Lemma rne_floor (q : Q) : rne q = Qfloor q \/ rne q = Qfloor q + 1.
Proof.
  unfold rne. destruct (q - inject_Z (Qfloor q) ?= 1 # 2)%Q; auto.
  destruct (Z.even (Qfloor q)); auto.
Qed.

Lemma rne_mono (q q' : Q) : (q <= q')%Q -> rne q <= rne q'.
Proof.
  intros Hq. pose proof (Qfloor_resp_le q q' Hq) as Hf.
  destruct (Z.eq_dec (Qfloor q) (Qfloor q')) as [E | Hne].
  - unfold rne. rewrite <- E.
    destruct (Qcompare_spec (q - inject_Z (Qfloor q)) (1 # 2)) as [H1|H1|H1];
      destruct (Qcompare_spec (q' - inject_Z (Qfloor q)) (1 # 2)) as [H2|H2|H2];
      try destruct (Z.even (Qfloor q)); try lia; exfalso; lra.
  - destruct (rne_floor q), (rne_floor q'); lia.
Qed.

Lemma rne_Z (k : Z) : rne (inject_Z k) = k.
Proof.
  unfold rne. rewrite Qfloor_Z.
  destruct (Qcompare_spec (inject_Z k - inject_Z k) (1 # 2)) as [H|H|H];
    [exfalso; lra | reflexivity | exfalso; lra].
Qed.

Lemma round64_comp (x y : Q) : (x == y)%Q -> round64 x = round64 y.
Proof. intros H. unfold round64. rewrite (Qred_complete x y H). reflexivity. Qed.

Lemma round64_0 : round64 0 = 0%Q.
Proof. reflexivity. Qed.

(** The shape of the rounding of a positive number. *)
Lemma round64_pos (x : Q) :
  (0 < x)%Q ->
  exists (x' : Q) (l : Z),
    (x' == x)%Q /\ (pow2 l <= x')%Q /\ (x' < pow2 (l + 1))%Q /\
    l = Qlog2 x' /\
    round64 x = (inject_Z (rne (x' / pow2 (Z.max (-1074) (l - 52))))
                 * pow2 (Z.max (-1074) (l - 52)))%Q.
Proof.
  intros Hx. exists (Qred x), (Qlog2 (Qred x)).
  assert (Hx' : (0 < Qred x)%Q) by (rewrite Qred_correct; exact Hx).
  destruct (Qlog2_spec (Qred x) Hx') as [H1 H2].
  split; [apply Qred_correct|]. split; [exact H1|]. split; [exact H2|].
  split; [reflexivity|].
  unfold round64. cbv zeta.
  destruct (Qeq_bool (Qred x) 0) eqn:E.
  { apply Qeq_bool_iff in E. exfalso. lra. }
  unfold ulp_exp.
  assert (Habs : Qabs (Qred x) = Qred x).
  { destruct (Qred x) as [n d]. unfold Qlt in Hx'. simpl in Hx'.
    unfold Qabs. f_equal. lia. }
  rewrite Habs. reflexivity.
Qed.

Lemma round64_mono_pos (x y : Q) :
  (0 < x)%Q -> (x <= y)%Q -> (round64 x <= round64 y)%Q.
Proof.
  intros Hx Hxy.
  destruct (round64_pos x Hx) as (x' & lx & Ex & Hx1 & Hx2 & Elx & ->).
  destruct (round64_pos y (Qlt_le_trans _ _ _ Hx Hxy)) as (y' & ly & Ey & Hy1 & Hy2 & Ely & ->).
  assert (Hxy' : (x' <= y')%Q) by lra.
  assert (Hl : lx <= ly).
  { subst lx ly. apply Qlog2_mono; [lra | exact Hxy']. }
  set (ex := Z.max (-1074) (lx - 52)). set (ey := Z.max (-1074) (ly - 52)).
  destruct (Z.eq_dec ex ey) as [E | Hne].
  - rewrite <- E. apply Qmult_le_compat_r; [|apply Qlt_le_weak, pow2_pos].
    rewrite <- Zle_Qle. apply rne_mono.
    apply Qmult_le_compat_r; [exact Hxy'|].
    apply Qlt_le_weak, Qinv_lt_0_compat, pow2_pos.
  - assert (Hlt : ex < ey) by (subst ex ey; lia).
    assert (Eey : ey = ly - 52) by (subst ex ey; lia).
    assert (Hex : lx - 52 <= ex) by (subst ex; lia).
    apply Qle_trans with (pow2 (52 + ey)).
    + apply Qle_trans with (inject_Z (2 ^ 53) * pow2 ex)%Q.
      * apply Qmult_le_compat_r; [|apply Qlt_le_weak, pow2_pos].
        rewrite <- Zle_Qle. rewrite <- (rne_Z (2 ^ 53)). apply rne_mono.
        apply Qle_shift_div_r; [apply pow2_pos|].
        rewrite <- pow2_Z by lia. rewrite <- pow2_add.
        apply Qle_trans with (pow2 (lx + 1)); [lra|]. apply pow2_le. lia.
      * rewrite <- pow2_Z by lia. rewrite <- pow2_add. apply pow2_le. lia.
    + apply Qle_trans with (inject_Z (2 ^ 52) * pow2 ey)%Q.
      * rewrite <- pow2_Z by lia. rewrite <- pow2_add. apply Qle_refl.
      * apply Qmult_le_compat_r; [|apply Qlt_le_weak, pow2_pos].
        rewrite <- Zle_Qle. rewrite <- (rne_Z (2 ^ 52)). apply rne_mono.
        apply Qle_shift_div_l; [apply pow2_pos|].
        rewrite <- pow2_Z by lia. rewrite <- pow2_add.
        apply Qle_trans with (pow2 ly); [|exact Hy1]. apply pow2_le. lia.
Qed.

Lemma round64_nonneg (x : Q) : (0 <= x)%Q -> (0 <= round64 x)%Q.
Proof.
  intros Hx. destruct (Qlt_le_dec 0 x) as [Hpos | Hle].
  - destruct (round64_pos x Hpos) as (x' & l & Ex & _ & _ & _ & ->).
    apply Qmult_le_0_compat; [|apply Qlt_le_weak, pow2_pos].
    change 0%Q with (inject_Z 0). rewrite <- Zle_Qle.
    rewrite <- (rne_Z 0). apply rne_mono.
    apply Qle_shift_div_l; [apply pow2_pos|]. change (inject_Z 0) with 0%Q. lra.
  - assert (E : (x == 0)%Q) by lra. rewrite (round64_comp x 0 E). apply Qle_refl.
Qed.

(** ** The remainder *)

(** [trunc] is the floor, or the floor plus one. *)
Lemma Qtrunc_floor (q : Q) : Qtrunc q = Qfloor q \/ Qtrunc q = Qfloor q + 1.
Proof.
  unfold Qtrunc. destruct (Qle_bool 0 q); [left; reflexivity|].
  pose proof (Qfloor_le q) as H1. pose proof (Qlt_floor q) as H2.
  pose proof (Qle_ceiling q) as H3. pose proof (Qceiling_lt q) as H4.
  assert (Ha : (inject_Z (Qfloor q) <= inject_Z (Qceiling q))%Q) by lra.
  assert (Hb : (inject_Z (Qceiling q - 1) < inject_Z (Qfloor q + 1))%Q) by lra.
  rewrite <- Zle_Qle in Ha. rewrite <- Zlt_Qlt in Hb. lia.
Qed.

Lemma float_rem_range (v L : Q) :
  (0 < L)%Q -> (round64 L == L)%Q ->
  exists h r : Q,
    float_rem (Finite v) L = Ok (Finite h) /\
    py_mod v L = Ok r /\ wraps L v r /\
    (0 <= h)%Q /\ (h <= L)%Q /\ ((h == r)%Q \/ (h == round64 r)%Q).
Proof.
  intros HL HfL. unfold float_rem, py_mod.
  destruct (Qeq_bool L 0) eqn:E0.
  { apply Qeq_bool_iff in E0. exfalso. lra. }
  assert (Hnz : ~ (L == 0)%Q) by lra.
  set (k := Qfloor (v / L)). set (r := (v - L * inject_Z k)%Q).
  assert (Hv : (v == L * (v / L))%Q) by (symmetry; apply Qmult_div_r; exact Hnz).
  assert (Hk1 : (inject_Z k <= v / L)%Q) by apply Qfloor_le.
  assert (Hk2 : (v / L < inject_Z (k + 1))%Q) by apply Qlt_floor.
  rewrite inject_Z_plus in Hk2. change (inject_Z 1) with 1%Q in Hk2.
  assert (Hr0 : (0 <= r)%Q).
  { unfold r. assert (H : (L * inject_Z k <= L * (v / L))%Q)
      by (apply Qmult_le_l; assumption). lra. }
  assert (HrL : (r < L)%Q).
  { unfold r. assert (H : (L * (v / L) < L * (inject_Z k + 1))%Q)
      by (apply Qmult_lt_l; assumption). lra. }
  assert (Hw : wraps L v r).
  { split; [exact Hr0|]. split; [exact HrL|]. exists k. unfold r. ring. }
  assert (Hup : forall s : Q, (0 <= s)%Q -> (s <= L)%Q ->
                (0 <= round64 s)%Q /\ (round64 s <= L)%Q).
  { intros s Hs0 HsL. split; [apply round64_nonneg, Hs0|].
    destruct (Qlt_le_dec 0 s) as [Hpos | Hle].
    - rewrite <- HfL. apply round64_mono_pos; assumption.
    - rewrite (round64_comp s 0) by lra. rewrite round64_0. lra. }
  cbv zeta. unfold c_fmod. fold k.
  destruct (Qtrunc_floor (v / L)) as [-> | ->]; fold k.
  - fold r. destruct (Qeq_bool r 0) eqn:Er; simpl.
    + apply Qeq_bool_iff in Er. exists 0%Q, r.
      split; [reflexivity|]. split; [reflexivity|]. split; [exact Hw|].
      split; [lra|]. split; [lra|]. left. lra.
    + replace (Qlt_bool L 0) with false by (symmetry; apply Qlt_bool_false; lra).
      replace (Qlt_bool r 0) with false by (symmetry; apply Qlt_bool_false; lra).
      simpl. exists r, r.
      split; [reflexivity|]. split; [reflexivity|]. split; [exact Hw|].
      split; [lra|]. split; [lra|]. left. reflexivity.
  - set (m := (v - L * inject_Z (k + 1))%Q).
    assert (Em : (m + L == r)%Q).
    { unfold m, r. rewrite inject_Z_plus. change (inject_Z 1) with 1%Q. ring. }
    destruct (Qeq_bool m 0) eqn:Emz; simpl.
    + apply Qeq_bool_iff in Emz. exfalso. lra.
    + replace (Qlt_bool L 0) with false by (symmetry; apply Qlt_bool_false; lra).
      replace (Qlt_bool m 0) with true by (symmetry; apply Qlt_bool_true; lra).
      simpl. exists (round64 (m + L)), r.
      rewrite (round64_comp (m + L) r Em).
      destruct (Hup r Hr0 (Qlt_le_weak _ _ HrL)) as [H1 H2].
      split; [reflexivity|]. split; [reflexivity|]. split; [exact Hw|].
      split; [exact H1|]. split; [exact H2|]. right. reflexivity.
Qed.

(** [round64] against the specification of binary64 of the standard
    library: 200 - 2^-60, the sum of the floats of 0.1 and 0.2, a tie
    between two subnormal numbers, and a negative number. *)
Example round64_as_SpecFloat :
  rounds_to (inject_Z (200 * 2 ^ 60 - 1) * pow2 (-60))
            (SpecFloat.binary_normalize 53 1024 (200 * 2 ^ 60 - 1) (-60) false) = true /\
  rounds_to (inject_Z 7205759403792794 * pow2 (-56) + inject_Z 7205759403792794 * pow2 (-55))
            (SpecFloat.SFadd 53 1024
               (SpecFloat.S754_finite false 7205759403792794 (-56))
               (SpecFloat.S754_finite false 7205759403792794 (-55))) = true /\
  rounds_to (inject_Z 3 * pow2 (-1075))
            (SpecFloat.binary_normalize 53 1024 3 (-1075) false) = true /\
  rounds_to (inject_Z (- (2 ^ 70 + 2 ^ 17 + 1)) * pow2 (-40))
            (SpecFloat.binary_normalize 53 1024 (- (2 ^ 70 + 2 ^ 17 + 1)) (-40) false) = true.
Proof. vm_compute. repeat split; reflexivity. Qed.

(** ** The gaps *)

Lemma float_gap (L x y : Q) :
  (0 < L)%Q -> (round64 L == L)%Q ->
  exists g : float64,
    float_rem (float_sub x y) L = Ok g /\
    float_wrapped L x y g /\
    fl_negative g = false.
Proof.
  intros HL HfL. unfold float_wrapped.
  destruct (float_sub x y) as [d|neg|] eqn:Ed.
  - destruct (float_rem_range d L HL HfL) as (h & r & Hrem & _ & Hw & Hh0 & HhL & Hhr).
    exists (Finite h). split; [exact Hrem|]. split.
    + exists h, r. auto.
    + simpl. apply Qlt_bool_false. exact Hh0.
  - exists NotANumber. unfold float_rem.
    destruct (Qeq_bool L 0) eqn:E0.
    { apply Qeq_bool_iff in E0. exfalso. lra. }
    auto.
  - exists NotANumber. unfold float_rem.
    destruct (Qeq_bool L 0) eqn:E0.
    { apply Qeq_bool_iff in E0. exfalso. lra. }
    auto.
Qed.

(** C4, as the code has it on floats.  On a track whose length [L] is a
    positive float, the headway is the remainder by [L] of the float
    [leadPos - thisPos]: the exact wrapped distance of that difference, or
    its rounding, never negative and at most [L]; it is [nan] when the
    difference is an infinity.  The footway is the same for
    [thisPos - trailPos].  With [L = 200], the vehicle at 190 and the leader
    at 10, the headway is 20, not -180. *)
Theorem gaps_on_floats (env : Env) (carID leadID trailID : string) :
  let L := scenario_length (scenario env) in
  let thisPos := get_x_by_id env carID in
  let leadPos := get_x_by_id env leadID in
  let trailPos := get_x_by_id env trailID in
  (0 < L)%Q ->
  (round64 L == L)%Q ->
  exists hw fw : float64,
    headway_float env carID leadID = Ok hw /\
    footway_float env carID trailID = Ok fw /\
    float_wrapped L leadPos thisPos hw /\
    float_wrapped L thisPos trailPos fw /\
    fl_negative hw = false /\
    fl_negative fw = false /\
    (L = 200%Q -> thisPos = 190%Q -> leadPos = 10%Q ->
     exists h : Q, hw = Finite h /\ (h == 20)%Q /\ ~ (h == -180)%Q).
Proof.
  intros L thisPos leadPos trailPos HL HfL.
  destruct (float_gap L leadPos thisPos HL HfL) as (hw & Hhw & Hwh & Hnh).
  destruct (float_gap L thisPos trailPos HL HfL) as (fw & Hfw & Hwf & Hnf).
  exists hw, fw. unfold headway_float, footway_float.
  fold L thisPos leadPos trailPos.
  split; [exact Hhw|]. split; [exact Hfw|].
  split; [exact Hwh|]. split; [exact Hwf|].
  split; [exact Hnh|]. split; [exact Hnf|].
  intros EL Ethis Elead. rewrite EL, Ethis, Elead in Hhw.
  vm_compute in Hhw. injection Hhw as <-.
  eexists. split; [reflexivity|]. split; [reflexivity | discriminate].
Qed.

Lemma gaps_on_floats_witness :
  exists hw fw : float64,
    headway_float env_wrap "A" "B" = Ok hw /\
    footway_float env_wrap "A" "C" = Ok fw /\
    float_wrapped 200 10 190 hw /\
    float_wrapped 200 190 140 fw /\
    fl_negative hw = false /\
    fl_negative fw = false /\
    (200 = 200 -> 190 = 190 -> 10 = 10 ->
     exists h : Q, hw = Finite h /\ (h == 20) /\ ~ (h == -180))%Q.
Proof.
  apply (gaps_on_floats env_wrap "A" "B" "C").
  - reflexivity.
  - vm_compute. reflexivity.
Defined.

(** C4, as the spec has it, fails on floats.  With the track length 200, the
    vehicle at position 2^-60 and the leader at position 0 (three floats),
    the wrapped distance from the vehicle to the leader is 200 - 2^-60; the
    headway of the code is its rounding, 200: the track length itself, which
    is no remainder modulo 200. *)
Lemma headway_reaches_track_length :
  let L := scenario_length (scenario env_hair) in
  let thisPos := get_x_by_id env_hair "A" in
  let leadPos := get_x_by_id env_hair "B" in
  (round64 L == L)%Q /\ (round64 thisPos == thisPos)%Q /\ (round64 leadPos == leadPos)%Q /\
  exists h r : Q,
    headway_float env_hair "A" "B" = Ok (Finite h) /\
    (h == 200)%Q /\
    py_mod (leadPos - thisPos) L = Ok r /\
    (r == 200 - (1 # 2 ^ 60))%Q /\
    ~ (h == r)%Q /\
    ~ (h < L)%Q.
Proof.
  cbv zeta.
  split; [vm_compute; reflexivity|]. split; [vm_compute; reflexivity|].
  split; [vm_compute; reflexivity|].
  eexists. eexists.
  split; [vm_compute; reflexivity|]. split; [vm_compute; reflexivity|].
  split; [vm_compute; reflexivity|]. split; [vm_compute; reflexivity|].
  split; vm_compute; discriminate.
Qed.
